(** * scEM_seq: barcode filtering, mate synchronisation, routing and counting

    A shallow embedding of the scripts of the repository

      - [add_cb_umi_to_fastq.py]       (whitelist filter, header encoder,
                                        mate synchroniser, summary),
      - [split_bam_by_cb.py]           (barcode router),
      - [count_umi_from_bam_folder.py] (tag aggregator),
      - [compute_mcpg_consistency.py]  (labels, the figures of a file and
                                        its guarded ratios),

    together with the properties their specification states about them.
    Reading and writing of FASTQ and BAM containers belongs to Biopython
    and pysam: a container is the list of its records, an output file the
    text written to it, and the file system a map from paths to contents.
    Where a script opens files whose names come from its input, as the
    router does, whether a path can be opened is the answer of the
    operating system, a parameter of the model: an [open] that fails
    raises [OSError], and the run ends there.

    Python values are modelled as follows: [str] is [string] (8-bit
    characters), [int] is [Z], a [set] of strings is a [gset string], a
    [dict] that is only looked up is a [gmap], a [dict] whose [items()]
    order reaches an output file is an insertion-ordered association list
    ([PyDict]), an exception is the [Raise] branch of [result]. *)

From Stdlib Require Import ZArith QArith Ascii String List Sorted Lia.
From stdpp Require Import base gmap strings list fin_maps.

Local Open Scope Z_scope.

(** ** Exceptions *)

Inductive exn : Set :=
| ZeroDivisionError
| ValueError
| OSError.

Inductive result (A : Type) : Type :=
| Ok (a : A)
| Raise (e : exn).

Arguments Ok {A} a.
Arguments Raise {A} e.

Definition bind {A B : Type} (m : result A) (k : A → result B) : result B :=
  match m with
  | Ok a => k a
  | Raise e => Raise e
  end.

Notation "'let*' x ':=' m 'in' k" := (bind m (fun x => k))
  (at level 10, x pattern, m at level 100, k at level 200).

(** A [for] loop whose body may raise: the first exception ends the loop. *)
Fixpoint for_each {St A : Type} (body : St → A → result St) (l : list A)
    (s : St) : result St :=
  match l with
  | [] => Ok s
  | x :: l' => let* s' := body s x in for_each body l' s'
  end.

(** ** Python strings *)

Module PyStr.

Definition nl : string := String "010" EmptyString.

(** [len(s)] *)
Definition len (s : string) : Z := Z.of_nat (String.length s).

(** [ord(c)] *)
Definition ord (c : ascii) : Z := Z.of_N (N_of_ascii c).

(** [chr(i)]. Python raises [ValueError] outside [range(0x110000)]; the
    characters of this model are the code points below 256, so the
    model raises from 256 on. *)
Definition chr (i : Z) : result ascii :=
  if (0 <=? i) && (i <? 256) then Ok (ascii_of_N (Z.to_N i))
  else Raise ValueError.

(** Index normalisation of a slice bound (step 1): a negative bound
    counts from the end, and both are clamped to [0, len]. *)
Definition adjust_index (i n : Z) : Z :=
  if i <? 0 then Z.max (i + n) 0 else Z.min i n.

(** [s[lo:hi]] *)
Definition slice (s : string) (lo hi : Z) : string :=
  let n := len s in
  let lo' := adjust_index lo n in
  let hi' := adjust_index hi n in
  String.substring (Z.to_nat lo') (Z.to_nat (hi' - lo')) s.

(** [s[:hi]] *)
Definition slice_to (s : string) (hi : Z) : string := slice s 0 hi.

(** [s.split(sep)] for a one-character separator: never the empty list. *)
Fixpoint split (sep : ascii) (s : string) : list string :=
  match s with
  | EmptyString => [EmptyString]
  | String c r =>
      if Ascii.eqb c sep then EmptyString :: split sep r
      else match split sep r with
           | [] => [String c EmptyString]
           | h :: t => String c h :: t
           end
  end.

(** [s.replace(old, new)]: every non-overlapping occurrence, leftmost
    first. [skip] counts the characters of a matched occurrence still to
    be dropped. With the empty [old], [new] goes before every character
    and at the end. *)
Fixpoint replace_from (old new : string) (skip : nat) (s : string) : string :=
  match s with
  | EmptyString => EmptyString
  | String c r =>
      match skip with
      | S k => replace_from old new k r
      | O =>
          if String.prefix old s
          then new +:+ replace_from old new (String.length old - 1) r
          else String c (replace_from old new O r)
      end
  end.

Fixpoint intersperse (new s : string) : string :=
  match s with
  | EmptyString => new
  | String c r => new +:+ String c (intersperse new r)
  end.

Definition replace (s old new : string) : string :=
  match old with
  | EmptyString => intersperse new s
  | _ => replace_from old new O s
  end.

(** [sep.join(chr(q + off) for q in qs)] for the empty separator. *)
Fixpoint join_chr (off : Z) (qs : list Z) : result string :=
  match qs with
  | [] => Ok EmptyString
  | q :: qs' =>
      let* c := chr (q + off) in
      let* r := join_chr off qs' in
      Ok (String c r)
  end.

(** [l[-1]] when [l] is not empty, the empty string otherwise. *)
Definition last_or_empty (l : list string) : string :=
  List.last l EmptyString.

End PyStr.


(** ** Python dictionaries with observable order

    A [dict] keeps its keys in insertion order, and [items()] and
    [values()] follow it; assigning to a key that is present keeps its
    place. *)

Module PyDict.

Definition t : Type := list (string * Z).

Definition empty : t := [].

(** [d.get(k)] *)
Fixpoint get (d : t) (k : string) : option Z :=
  match d with
  | [] => None
  | (k', v) :: d' => if String.eqb k' k then Some v else get d' k
  end.

(** [d.get(k, dflt)] *)
Definition get_default (d : t) (k : string) (dflt : Z) : Z :=
  match get d k with
  | Some v => v
  | None => dflt
  end.

(** [d[k] = v] *)
Fixpoint set (d : t) (k : string) (v : Z) : t :=
  match d with
  | [] => [(k, v)]
  | (k', v') :: d' =>
      if String.eqb k' k then (k', v) :: d' else (k', v') :: set d' k v
  end.

Definition items (d : t) : list (string * Z) := d.

Definition values (d : t) : list Z := map snd d.

End PyDict.

(** [sum(l)] *)
Definition py_sum (l : list Z) : Z := fold_left Z.add l 0.

(** [a / b] on integers: true division. The quotient is kept as an exact
    rational; the rounding to a float is not modelled. *)
Definition py_truediv (a b : Z) : result Q :=
  if b =? 0 then Raise ZeroDivisionError
  else Ok (Qdiv (inject_Z a) (inject_Z b)).

(** [sorted(l, key=lambda x: x[1], reverse=True)]: descending by count;
    the sort is stable, so entries with equal counts keep their order. *)
Fixpoint insert_desc (x : string * Z) (l : list (string * Z))
  : list (string * Z) :=
  match l with
  | [] => [x]
  | y :: l' => if snd x <? snd y then y :: insert_desc x l' else x :: l
  end.

Definition sorted_by_count_desc (l : list (string * Z)) : list (string * Z) :=
  fold_right insert_desc [] l.

(** ** FASTQ records

    A record as the reader hands it over: the identifier (first word of
    the title line), the sequence line and the quality line. *)

Record SeqRecord : Type := mkSeqRecord {
  rec_id : string;
  rec_seq : string;
  rec_qual_line : string
}.

(** [record.letter_annotations["phred_quality"]]: the reader (Biopython's
    SeqIO, outside the repository) decodes the quality line under the
    offset-33 convention of the FASTQ format: one score [ord(c) - 33] per
    character. *)
Definition phred_quality (record : SeqRecord) : list Z :=
  map (fun c => PyStr.ord c - 33) (list_ascii_of_string (rec_qual_line record)).

(** The four lines written for one record:
    [f"{name}\n{seq}\n+\n{qual}\n"]. *)
Definition fastq_entry (name seq qual : string) : string :=
  name +:+ PyStr.nl +:+ seq +:+ PyStr.nl +:+ "+" +:+ PyStr.nl +:+ qual +:+ PyStr.nl.

(** ** add_cb_umi_to_fastq.py *)

(** [f"@{record.id}_{cb}_{umi} 1:N:0:{umi}"] *)
Definition new_read_name (record_id cb umi : string) : string :=
  "@" +:+ record_id +:+ "_" +:+ cb +:+ "_" +:+ umi +:+ " 1:N:0:" +:+ umi.

(** The local variables of [process_read1]; [r1_out] lists the successive
    [f_out.write] calls (the output file is their concatenation). *)
Record R1State : Type := mkR1State {
  r1_out : list string;
  cb_umi_dict : gmap string string;
  cb_count : PyDict.t;
  total_reads : Z;
  invalid_cb_reads : Z
}.

Definition r1_init : R1State :=
  {| r1_out := []; cb_umi_dict := ∅; cb_count := PyDict.empty;
     total_reads := 0; invalid_cb_reads := 0 |}.

(** One iteration of the loop of [process_read1]. *)
Definition process_read1_body (cb_list : gset string) (cb_len umi_len : Z)
    (st : R1State) (record : SeqRecord) : result R1State :=
  let total_reads' := total_reads st + 1 in
  let seq := rec_seq record in
  if PyStr.len seq <? cb_len + umi_len then
    Ok {| r1_out := r1_out st; cb_umi_dict := cb_umi_dict st;
          cb_count := cb_count st; total_reads := total_reads';
          invalid_cb_reads := invalid_cb_reads st + 1 |}
  else
    let cb := PyStr.slice_to seq cb_len in
    let umi := PyStr.slice seq cb_len (cb_len + umi_len) in
    if decide (cb ∉ cb_list) then
      Ok {| r1_out := r1_out st; cb_umi_dict := cb_umi_dict st;
            cb_count := cb_count st; total_reads := total_reads';
            invalid_cb_reads := invalid_cb_reads st + 1 |}
    else
      let name := new_read_name (rec_id record) cb umi in
      let* qual := PyStr.join_chr 33 (phred_quality record) in
      Ok {| r1_out := r1_out st ++ [fastq_entry name seq qual];
            cb_umi_dict := <[rec_id record := name]> (cb_umi_dict st);
            cb_count :=
              PyDict.set (cb_count st) cb
                (PyDict.get_default (cb_count st) cb 0 + 1);
            total_reads := total_reads';
            invalid_cb_reads := invalid_cb_reads st |}.

Definition process_read1 (records : list SeqRecord) (cb_list : gset string)
    (cb_len umi_len : Z) : result R1State :=
  for_each (process_read1_body cb_list cb_len umi_len) records r1_init.

(** The local variables of [process_read2]. *)
Record R2State : Type := mkR2State {
  r2_out : list string;
  missing_r2 : Z
}.

Definition r2_init : R2State := {| r2_out := []; missing_r2 := 0 |}.

(** One iteration of the loop of [process_read2]. *)
Definition process_read2_body (index : gmap string string) (st : R2State)
    (record : SeqRecord) : result R2State :=
  let read_id := rec_id record in
  match index !! read_id with
  | None => Ok {| r2_out := r2_out st; missing_r2 := missing_r2 st + 1 |}
  | Some r1_header =>
      let r2_header := PyStr.replace r1_header " 1:N:0:" " 2:N:0:" in
      let seq := rec_seq record in
      let* qual := PyStr.join_chr 33 (phred_quality record) in
      Ok {| r2_out := r2_out st ++ [fastq_entry r2_header seq qual];
            missing_r2 := missing_r2 st |}
  end.

Definition process_read2 (records : list SeqRecord)
    (index : gmap string string) : result R2State :=
  for_each (process_read2_body index) records r2_init.

(** What [write_cb_summary] produces: the figures of the message on
    standard error, and the lines of [<prefix>_cell_barcode_info.txt]. *)
Record Summary : Type := mkSummary {
  sum_total_reads : Z;
  sum_kept_reads : Z;
  sum_kept_ratio : Q;
  sum_invalid_cb_reads : Z;
  sum_missing_r2 : Z;
  sum_path : string;
  sum_rows : list (string * Z)
}.

Definition write_cb_summary (cb_count : PyDict.t)
    (total_reads invalid_cb_reads missing_r2 : Z) (prefix : string)
  : result Summary :=
  let kept_reads := py_sum (PyDict.values cb_count) in
  let* ratio := py_truediv kept_reads total_reads in
  let summary_path := prefix +:+ "_cell_barcode_info.txt" in
  let sorted_items := sorted_by_count_desc (PyDict.items cb_count) in
  Ok {| sum_total_reads := total_reads; sum_kept_reads := kept_reads;
        sum_kept_ratio := ratio; sum_invalid_cb_reads := invalid_cb_reads;
        sum_missing_r2 := missing_r2; sum_path := summary_path;
        sum_rows := sorted_items |}.

(** [main], from the loaded whitelist and the two record streams on. *)
Definition add_cb_umi_main (cb_list : gset string)
    (in1 in2 : list SeqRecord) (cb_len umi_len : Z) (prefix : string)
  : result (R1State * R2State * Summary) :=
  let* r1 := process_read1 in1 cb_list cb_len umi_len in
  let* r2 := process_read2 in2 (cb_umi_dict r1) in
  let* s := write_cb_summary (cb_count r1) (total_reads r1)
              (invalid_cb_reads r1) (missing_r2 r2) prefix in
  Ok (r1, r2, s).

(** ** Aligned records

    What the scripts use of a [pysam.AlignedSegment] read from a
    container: the read name (a string) and the SAM line that
    [to_string()] returns. *)

Record AlignedSegment : Type := mkAlignedSegment {
  query_name : string;
  to_string : string
}.

(** ** split_bam_by_cb.py *)

(** [os.path.basename(p)]: what follows the last slash. *)
Definition os_path_basename (p : string) : string :=
  PyStr.last_or_empty (PyStr.split "/" p).

(** [os.path.join(a, b)] on POSIX paths. *)
Definition os_path_join (a b : string) : string :=
  if String.prefix "/" b then b
  else match a with
       | EmptyString => b
       | _ => if String.eqb (PyStr.slice a (-1) (PyStr.len a)) "/"
              then a +:+ b else a +:+ "/" +:+ b
       end.

(** For a [str] argument nothing in the [try] block raises: [split] is
    total and [parts[0]] comes after the length test. The [except] branch,
    which would turn a failing [parts[0]] into [None], is the case of the
    empty list below. *)
Definition extract_cb_from_read_name (read_name : string) : option string :=
  let parts := PyStr.split "_" read_name in
  if Z.of_nat (length parts) <? 4 then None
  else match parts with
       | [] => None
       | cb :: _ => Some cb
       end.

Definition output_dir : string := "split_bam_files_sam".

(** [os.path.basename(bam_file_path).replace(".bam", empty)] *)
Definition bam_basename (bam_file_path : string) : string :=
  PyStr.replace (os_path_basename bam_file_path) ".bam" EmptyString.

(** [os.path.join(output_dir, f"{basename}_{cb}.sam")] *)
Definition out_path (basename cb : string) : string :=
  os_path_join output_dir (basename +:+ "_" +:+ cb +:+ ".sam").

(** The state of the routing loop: the barcodes whose file has its header,
    the files written so far (path to content) and the warnings printed. *)
Record RouterState : Type := mkRouterState {
  written_cbs : gset string;
  files : gmap string string;
  warnings : list string
}.

(** Whether [open(path, "w")] and [open(path, "a")] succeed is the answer
    of the operating system: [open] raises an [OSError] when a directory
    of the path does not exist ([FileNotFoundError], as for a barcode
    that holds a slash, which puts the file in a subdirectory of
    [output_dir]) or when the file name is too long. [can_open] is that
    answer; it is the same for the whole of a run. *)

(** [open(path, "w")] followed by writes that amount to [content]: what
    the file held before is lost. *)
Definition write_file (can_open : string → bool) (fs : gmap string string)
    (path content : string) : result (gmap string string) :=
  if can_open path then Ok (<[path := content]> fs) else Raise OSError.

(** [open(path, "a")] followed by one write: the file is created when it
    does not exist. *)
Definition append_file (can_open : string → bool) (fs : gmap string string)
    (path content : string) : result (gmap string string) :=
  if can_open path
  then Ok (<[path := default EmptyString (fs !! path) +:+ content]> fs)
  else Raise OSError.

(** One iteration of the loop of [main]. Nothing catches the exception of
    a failing [open]: the barcode is then not added to [written_cbs]. *)
Definition route_body (can_open : string → bool)
    (header_text basename : string) (st : RouterState)
    (read : AlignedSegment) : result RouterState :=
  match extract_cb_from_read_name (query_name read) with
  | None =>
      Ok {| written_cbs := written_cbs st; files := files st;
            warnings := warnings st ++
              ["[WARN] Failed to parse CB from read: " +:+ query_name read] |}
  | Some cb =>
      let path := out_path basename cb in
      if decide (cb ∉ written_cbs st) then
        let* fs := write_file can_open (files st) path
                     (header_text +:+ (to_string read +:+ PyStr.nl)) in
        Ok {| written_cbs := {[cb]} ∪ written_cbs st; files := fs;
              warnings := warnings st |}
      else
        let* fs := append_file can_open (files st) path
                     (to_string read +:+ PyStr.nl) in
        Ok {| written_cbs := written_cbs st; files := fs;
              warnings := warnings st |}
  end.

(** The loop over the records. An exception ends the run: what is returned
    then is the state that the failing iteration found, whose files are
    the files that the run leaves behind, and the exception. *)
Fixpoint route_loop (can_open : string → bool)
    (header_text basename : string) (reads : list AlignedSegment)
    (st : RouterState) : RouterState * option exn :=
  match reads with
  | [] => (st, None)
  | read :: reads' =>
      match route_body can_open header_text basename st read with
      | Ok st' => route_loop can_open header_text basename reads' st'
      | Raise e => (st, Some e)
      end
  end.

(** The loop of [main] over the records of the container, from the files
    [fs] that exist when it starts. *)
Definition split_bam_main (can_open : string → bool)
    (bam_file_path header_text : string) (reads : list AlignedSegment)
    (fs : gmap string string) : RouterState * option exn :=
  route_loop can_open header_text (bam_basename bam_file_path) reads
    {| written_cbs := ∅; files := fs; warnings := [] |}.

(** ** count_umi_from_bam_folder.py *)

(** [name_parts[-1] if name_parts else empty] of the split read name. *)
Definition read_tag (read : AlignedSegment) : string :=
  let name_parts := PyStr.split "_" (query_name read) in
  PyStr.last_or_empty name_parts.

(** One iteration of the loop of [umi_count_bam]. *)
Definition count_body (tag_count : PyDict.t) (read : AlignedSegment)
  : PyDict.t :=
  let tag := read_tag read in
  match PyDict.get tag_count tag with
  | None => PyDict.set tag_count tag 1
  | Some n => PyDict.set tag_count tag (n + 1)
  end.

(** [umi_count_bam]: the number of rows of the table, the sum of its
    [count] column, and the table (rows [(tag, count)]). *)
Definition umi_count_bam (reads : list AlignedSegment)
  : Z * Z * list (string * Z) :=
  let tag_count := fold_left count_body reads PyDict.empty in
  let df := PyDict.items tag_count in
  let umi_count := Z.of_nat (length df) in
  let reads_number := py_sum (map snd df) in
  (umi_count, reads_number, df).

(** ** compute_mcpg_consistency.py *)

(** [num / den if den > 0 else 0.0], the form of [rep_pro], [ins_pro] and
    of the two columns [Rep_pro] and [Ins_pro]. *)
Definition mcpg_ratio (num den : Z) : result Q :=
  if den >? 0 then py_truediv num den else Ok 0%Q.

(** ** Vocabulary of the specification *)

(** The barcode and the molecular identifier of a mate-1 record: the
    slices [seq[:cb_len]] and [seq[cb_len : cb_len + umi_len]]. *)
Definition record_cb (cb_len : Z) (record : SeqRecord) : string :=
  PyStr.slice_to (rec_seq record) cb_len.

Definition record_umi (cb_len umi_len : Z) (record : SeqRecord) : string :=
  PyStr.slice (rec_seq record) cb_len (cb_len + umi_len).

(** The rejection rule of the whitelist filter, in the words of the
    specification: the sequence is shorter than [L_cb + L_umi], or its
    barcode is absent from the whitelist. *)
Definition rejected (cb_list : gset string) (cb_len umi_len : Z)
    (record : SeqRecord) : Prop :=
  PyStr.len (rec_seq record) < cb_len + umi_len
  ∨ record_cb cb_len record ∉ cb_list.

#[global] Instance rejected_dec cb_list cb_len umi_len record :
  Decision (rejected cb_list cb_len umi_len record).
Proof. unfold rejected. apply _. Defined.

(** The header grammar of the specification:
    [@<identity>_<CB>_<UMI> <mateTag>:N:0:<UMI>]. *)
Definition encoded_header (identity cb umi mate_tag : string) : string :=
  "@" +:+ identity +:+ "_" +:+ cb +:+ "_" +:+ umi +:+ " " +:+ mate_tag
      +:+ ":N:0:" +:+ umi.

(** The header and the four lines of an accepted mate-1 record. *)
Definition mate1_header (cb_len umi_len : Z) (record : SeqRecord) : string :=
  encoded_header (rec_id record) (record_cb cb_len record)
    (record_umi cb_len umi_len record) "1".

Definition mate1_entry (cb_len umi_len : Z) (record : SeqRecord) : string :=
  fastq_entry (mate1_header cb_len umi_len record) (rec_seq record)
    (rec_qual_line record).

(** [c in s] for a character. *)
Fixpoint has_char (c : ascii) (s : string) : bool :=
  match s with
  | EmptyString => false
  | String c' r => Ascii.eqb c' c || has_char c r
  end.

(** The reader yields identifiers and sequences without a space: the
    identifier is the first word of the title line, and a sequence line
    holding white space is refused. *)
Definition space_free (record : SeqRecord) : bool :=
  negb (has_char " " (rec_id record)) && negb (has_char " " (rec_seq record)).

(** The four lines of a mate-2 record whose identity the index maps to
    the header [h]. *)
Definition mate2_entry (h : string) (record : SeqRecord) : string :=
  fastq_entry (PyStr.replace h " 1:N:0:" " 2:N:0:") (rec_seq record)
    (rec_qual_line record).

(** The mate-2 records that have an entry in the index, in stream order. *)
Definition matched (index : gmap string string) (records : list SeqRecord)
  : list SeqRecord :=
  filter (fun r => is_Some (index !! rec_id r)) records.

(** [out] holds one entry per record of [records], in order, each under
    the header that the index gives for the identity of its record. *)
Definition written_for (index : gmap string string)
    (records : list SeqRecord) (out : list string) : Prop :=
  Forall2
    (fun record entry =>
       ∃ h, index !! rec_id record = Some h ∧ entry = mate2_entry h record)
    records out.

(** The records of a container that carry barcode [cb], in stream order,
    and the lines they contribute to a partition. *)
Definition routed_to (cb : string) (reads : list AlignedSegment)
  : list AlignedSegment :=
  filter (fun r => extract_cb_from_read_name (query_name r) = Some cb) reads.

Definition sam_lines (reads : list AlignedSegment) : string :=
  fold_right (fun r acc => (to_string r +:+ PyStr.nl) +:+ acc) EmptyString reads.

(** The number of records of a container that carry [tag]. *)
Definition carrying (tag : string) (reads : list AlignedSegment) : Z :=
  Z.of_nat (length (filter (fun r => read_tag r = tag) reads)).

(** [s] ends in [suffix]. *)
Fixpoint ends_with (suffix s : string) : bool :=
  String.eqb s suffix
  || match s with
     | EmptyString => false
     | String _ r => ends_with suffix r
     end.

(** The tag of a record identity in the words of the specification, the
    last underscore-separated field: [tag] holds no underscore, and the
    identity is [tag] itself or ends in an underscore followed by [tag]. *)
Definition is_last_field (tag name : string) : bool :=
  negb (has_char "_" tag)
  && (String.eqb name tag || ends_with (String "_" tag) name).

(** The number of records of a container whose identity has [tag] as its
    last underscore-separated field. *)
Definition records_ending_in (tag : string) (reads : list AlignedSegment) : Z :=
  Z.of_nat
    (length (filter (fun r => is_last_field tag (query_name r) = true) reads)).

(** ** Further code of the scripts *)

(** *** add_cb_umi_to_fastq.py: the whitelist *)

(** The characters that [str.strip()] removes, among the code points
    below 256: those for which [str.isspace()] holds. *)
Definition is_space (c : ascii) : bool :=
  let n := N_of_ascii c in
  ((9 <=? n) && (n <=? 13) || (28 <=? n) && (n <=? 32)
   || (n =? 133) || (n =? 160))%N.

(** [s.lstrip()] *)
Fixpoint lstrip (s : string) : string :=
  match s with
  | EmptyString => EmptyString
  | String c r => if is_space c then lstrip r else s
  end.

(** [s.rstrip()] *)
Fixpoint rstrip (s : string) : string :=
  match s with
  | EmptyString => EmptyString
  | String c r =>
      match rstrip r with
      | EmptyString => if is_space c then EmptyString else String c EmptyString
      | r' => String c r'
      end
  end.

(** [s.strip()] *)
Definition strip (s : string) : string := rstrip (lstrip s).

(** One iteration of the loop of [read_cell_barcodes]. *)
Definition read_cell_barcodes_body (cb_set : gset string) (line : string)
  : gset string :=
  let line := strip line in
  if String.eqb line EmptyString then cb_set else {[line]} ∪ cb_set.

(** [read_cell_barcodes], from the lines of the file (as the iteration
    over the open file yields them, line ends included). *)
Definition read_cell_barcodes (lines : list string) : result (gset string) :=
  let cb_set := fold_left read_cell_barcodes_body lines ∅ in
  if decide (cb_set = ∅) then Raise ValueError else Ok cb_set.


(** *** Counting vocabulary *)

(** The number of occurrences of a character. *)
Fixpoint count_char (c : ascii) (s : string) : nat :=
  match s with
  | EmptyString => O
  | String c' r => if Ascii.eqb c' c then S (count_char c r) else count_char c r
  end.

(** The number of accepted mate-1 records that carry barcode [cb]. *)
Definition kept_with (cb_list : gset string) (cb_len umi_len : Z)
    (cb : string) (records : list SeqRecord) : Z :=
  Z.of_nat (length (filter
    (fun r => ¬ rejected cb_list cb_len umi_len r ∧ record_cb cb_len r = cb)
    records)).

(** The elements of a list in the order in which they first occur. *)
Fixpoint first_occurrences (l : list string) : list string :=
  match l with
  | [] => []
  | x :: l' => x :: filter (fun y => y ≠ x) (first_occurrences l')
  end.

(** *** count_umi_from_bam_folder.py: labels and the corpus summary *)

(** The rest of [s] after the literal [p], when [s] starts with [p]. *)
Fixpoint strip_prefix (p s : string) : option string :=
  match p, s with
  | EmptyString, _ => Some s
  | String a p', String b s' =>
      if Ascii.eqb a b then strip_prefix p' s' else None
  | String _ _, EmptyString => None
  end.

(** The tail [(.*?).<lit>] of the pattern, matched where [s] starts. The
    group is lazy: it ends at the first character that is followed by
    [lit]; that character is the one the unescaped dot consumes. A dot
    matches any character but the line feed, so a line feed before such
    a place makes the match fail. [acc] is the group so far. *)
Fixpoint lazy_group_then (lit : string) (s : string) (acc : string)
  : option string :=
  match s with
  | EmptyString => None
  | String c r =>
      if Ascii.eqb c "010" then None
      else match strip_prefix lit r with
           | Some _ => Some acc
           | None => lazy_group_then lit r (acc +:+ String c EmptyString)
           end
  end.

(** [re.search(marker + "(.*?)." + lit, s)], the group of the match: the
    leftmost position at which the pattern matches is taken. *)
Fixpoint re_search_group (marker lit : string) (s : string) : option string :=
  let here :=
    match strip_prefix marker s with
    | Some rest => lazy_group_then lit rest EmptyString
    | None => None
    end in
  match here with
  | Some g => Some g
  | None =>
      match s with
      | EmptyString => None
      | String _ r => re_search_group marker lit r
      end
  end.

(** The string split at the last occurrence of [c]: what stands before
    it, and the rest from [c] on. *)
Fixpoint rsplit_at (c : ascii) (s : string) : option (string * string) :=
  match s with
  | EmptyString => None
  | String a r =>
      match rsplit_at c r with
      | Some (b, e) => Some (String a b, e)
      | None => if Ascii.eqb a c then Some (EmptyString, s) else None
      end
  end.

Fixpoint all_dots (s : string) : bool :=
  match s with
  | EmptyString => true
  | String a r => Ascii.eqb a "." && all_dots r
  end.

(** [os.path.splitext(p)] on POSIX paths: the extension starts at the
    last dot of the last component, unless only dots stand before it in
    that component. *)
Definition os_path_splitext (p : string) : string * string :=
  let '(head, name) :=
    match rsplit_at "/" p with
    | Some (b, String _ e) => (b +:+ "/", e)
    | _ => (EmptyString, p)
    end in
  match rsplit_at "." name with
  | Some (b, e) => if all_dots b then (p, EmptyString) else (head +:+ b, e)
  | None => (p, EmptyString)
  end.

(** The shape shared by the two functions [extract_barcode_from_filename]:
    the group of the pattern in the base name, and the base name without
    its extension when the pattern does not match. *)
Definition extract_barcode_with (marker : string) (path : string) : string :=
  let basename := os_path_basename path in
  match re_search_group marker "deduplicated" basename with
  | Some g => g
  | None => fst (os_path_splitext basename)
  end.

(** [extract_barcode_from_filename] of [count_umi_from_bam_folder.py],
    pattern [r"_cc3_srtn_(.*?).deduplicated"]. *)
Definition extract_barcode_from_filename (bam_path : string) : string :=
  extract_barcode_with "_cc3_srtn_" bam_path.

(** [extract_barcode_from_filename] of [compute_mcpg_consistency.py],
    pattern [r"_srtn_(.*?).deduplicated"]. *)
Definition mcpg_extract_barcode_from_filename (path : string) : string :=
  extract_barcode_with "_srtn_" path.

(** [sorted(l)] for a list of strings: ascending by code points. *)
Fixpoint insert_str (x : string) (l : list string) : list string :=
  match l with
  | [] => [x]
  | y :: l' => if String.leb x y then x :: l else y :: insert_str x l'
  end.

Definition sorted_str (l : list string) : list string :=
  fold_right insert_str [] l.

(** What [main] of [count_umi_from_bam_folder.py] writes: the rows
    [barcode, umi_count, reads_count] of the summary, and the detail
    tables in the order in which they are written, each with its file
    name. *)
Record CountUmiOutput : Type := mkCountUmiOutput {
  summary_rows : list (string * Z * Z);
  detail_tables : list (string * list (string * Z))
}.

(** One iteration of the loop of [main]: the row appended to
    [barcode_list]. *)
Definition count_umi_row (container : string → list AlignedSegment)
    (fbam : string) : string * Z * Z :=
  let '(umi_count, reads_number, _) := umi_count_bam (container fbam) in
  (extract_barcode_from_filename fbam, umi_count, reads_number).

(** One iteration of the loop of [main]: the detail table and the name
    of the file it is saved to. *)
Definition count_umi_detail (container : string → list AlignedSegment)
    (fbam : string) : string * list (string * Z) :=
  let '(_, _, temp_df) := umi_count_bam (container fbam) in
  (os_path_basename fbam +:+ ".reads.info.txt", temp_df).

(** [main], from the list that [glob] returns on; [container] gives the
    records of the file at a path. [None] is the exit without output when
    no file was found. *)
Definition count_umi_main (bam_files : list string)
    (container : string → list AlignedSegment) : option CountUmiOutput :=
  match bam_files with
  | [] => None
  | _ =>
      let files := sorted_str bam_files in
      Some {| summary_rows := map (count_umi_row container) files;
              detail_tables := map (count_umi_detail container) files |}
  end.

(** *** compute_mcpg_consistency.py: the figures of one file *)

(** A row of the frame that [read_csv] returns for a file whose lines
    hold the three columns: chromosome, position (an integer) and status
    (the parsed cell, compared by equality). *)
Record CpgRow : Type := mkCpgRow {
  cpg_chr : string;
  cpg_pos : Z;
  cpg_status : string
}.

(** [Counter(pos_list)]: the number of times each position is seen. *)
Definition counter_body (counts : gmap Z Z) (pos : Z) : gmap Z Z :=
  <[pos := default 0 (counts !! pos) + 1]> counts.

Definition Counter (pos_list : list Z) : gmap Z Z :=
  fold_left counter_body pos_list ∅.

(** [temp_df_sorted[temp_df_sorted["pos"] == pos]["status"].tolist()] *)
Definition status_list_at (temp_df_sorted : list CpgRow) (pos : Z)
  : list string :=
  map cpg_status (filter (fun r => cpg_pos r = pos) temp_df_sorted).

(** The body of the loop of [main] for one file, from the sorted frame
    on: [(detect_pos, count_ge_2, status_2)], the columns [Detect_pos],
    [Rep_pos] and [Ins_pos] of the file's row. *)
Definition mcpg_file_metrics (temp_df_sorted : list CpgRow) : Z * Z * Z :=
  let pos_list := map cpg_pos temp_df_sorted in
  if Z.of_nat (length pos_list) =? 0 then (0, 0, 0)
  else
    let counts := Counter pos_list in
    let count_ge_2 :=
      Z.of_nat (length (filter (fun value => 2 ≤ value)
                          (map snd (map_to_list counts)))) in
    let detect_pos := Z.of_nat (size counts) in
    let unique_positions : gset Z := list_to_set pos_list in
    let status_2 :=
      Z.of_nat (length (filter
        (fun pos =>
           size (list_to_set (status_list_at temp_df_sorted pos) : gset string)
           ≠ 1%nat)
        (elements unique_positions))) in
    (detect_pos, count_ge_2, status_2).

(** What becomes of the command line of [compute_mcpg_consistency.py]:
    the usage message and exit status 1, an [IndexError], or the two
    arguments. *)
Inductive McpgArgs : Type :=
| McpgUsage
| McpgIndexError
| McpgArgsOk (directory_path out_file : string).

Definition mcpg_parse_argv (argv : list string) : McpgArgs :=
  let n := Z.of_nat (length argv) in
  if negb (n =? 2) && negb (n =? 3) then McpgUsage
  else
    match argv !! 1%nat with
    | None => McpgIndexError
    | Some directory_path =>
        match argv !! 2%nat with
        | None => McpgIndexError
        | Some out_file => McpgArgsOk directory_path out_file
        end
    end.

(** *** Vocabulary for the figures of a file *)

(** The (position, status) pairs of a frame. *)
Definition cpg_pairs (rows : list CpgRow) : list (Z * string) :=
  map (fun r => (cpg_pos r, cpg_status r)) rows.

(** The positions that occur, the number of times a position occurs and
    the statuses observed at a position. *)
Definition positions_seen (ps : list (Z * string)) : gset Z :=
  list_to_set (map fst ps).

Definition times_seen (ps : list (Z * string)) (pos : Z) : nat :=
  length (filter (fun p => p.1 = pos) ps).

Definition statuses_seen (ps : list (Z * string)) (pos : Z) : gset string :=
  list_to_set (map snd (filter (fun p => p.1 = pos) ps)).

(** The positions seen at least twice, and the positions at which more
    than one status was observed. *)
Definition positions_repeated (ps : list (Z * string)) : gset Z :=
  filter (fun pos => (2 ≤ times_seen ps pos)%nat) (positions_seen ps).

Definition positions_inconsistent (ps : list (Z * string)) : gset Z :=
  filter (fun pos => (2 ≤ size (statuses_seen ps pos))%nat)
    (positions_seen ps).

(** *** Vocabulary for routing runs *)

(** The iteration for [read] opens no file, or a file that can be
    opened. *)
Definition openable (can_open : string → bool) (basename : string)
    (read : AlignedSegment) : bool :=
  match extract_cb_from_read_name (query_name read) with
  | None => true
  | Some cb => can_open (out_path basename cb)
  end.

(** The records that stand before the first record whose partition cannot
    be opened: all records when there is no such record. *)
Fixpoint processed (can_open : string → bool) (basename : string)
    (reads : list AlignedSegment) : list AlignedSegment :=
  match reads with
  | [] => []
  | read :: reads' =>
      if openable can_open basename read
      then read :: processed can_open basename reads'
      else []
  end.

(** What the state [st] is like when the loop, started on the files [fs],
    has gone through the records [done]: the barcodes with a header are
    those that occurred; the partition of each holds the header block
    followed by the lines of its records, in stream order; every other
    file is as it was; there is one warning per unroutable record. *)
Definition router_inv (header_text basename : string)
    (fs : gmap string string) (done : list AlignedSegment)
    (st : RouterState) : Prop :=
  (∀ cb, cb ∈ written_cbs st ↔ routed_to cb done ≠ [])
  ∧ (∀ cb, routed_to cb done ≠ [] →
       files st !! out_path basename cb
       = Some (header_text +:+ sam_lines (routed_to cb done)))
  ∧ (∀ p, (∀ cb, routed_to cb done ≠ [] → p ≠ out_path basename cb) →
       files st !! p = fs !! p)
  ∧ length (warnings st)
    = length (filter (fun r => extract_cb_from_read_name (query_name r) = None)
                done).

(** The answers of a file system in which [split_bam_files_sam] has just
    been made and holds no directory, and in which a file name has at
    most 255 characters: a path can be opened when it names a file
    directly in that directory. *)
Definition fresh_output_dir (path : string) : bool :=
  match strip_prefix "split_bam_files_sam/" path with
  | Some name => negb (has_char "/" name) && (String.length name <=? 255)%nat
  | None => false
  end.

(** * Properties *)

(** ** Strings *)

Example split_four :
  PyStr.split "_" "AAAC_UMI_001_R1" = ["AAAC"; "UMI"; "001"; "R1"].
Proof. reflexivity. Qed.

Example split_empty : PyStr.split "_" EmptyString = [EmptyString].
Proof. reflexivity. Qed.

Example split_trailing :
  PyStr.split "_" "_a_" = [EmptyString; "a"; EmptyString].
Proof. reflexivity. Qed.

Example slice_neg : PyStr.slice_to "ACGTAC" (-1) = "ACGTA".
Proof. reflexivity. Qed.

Example slice_mid : PyStr.slice "AAAATTxxxx" 4 6 = "TT".
Proof. reflexivity. Qed.

Example replace_once :
  PyStr.replace "@r1_AAAA_TT 1:N:0:TT" " 1:N:0:" " 2:N:0:"
  = "@r1_AAAA_TT 2:N:0:TT".
Proof. reflexivity. Qed.

Example replace_overlap : PyStr.replace "aaaa" "aa" "b" = "bb".
Proof. reflexivity. Qed.

Example replace_empty_old : PyStr.replace "ab" EmptyString "x" = "xaxbx".
Proof. reflexivity. Qed.

Lemma length_substring (s : string) (n m : nat) :
  (n + m ≤ String.length s)%nat → String.length (substring n m s) = m.
Proof.
  revert n m. induction s as [|c s IH]; intros n m Hle; simpl in *.
  - destruct n, m; simpl; lia.
  - destruct n as [|n].
    + destruct m as [|m]; simpl; [reflexivity|]. rewrite IH; lia.
    + apply IH. lia.
Qed.

Lemma len_slice (s : string) (lo hi : Z) :
  0 ≤ lo ≤ hi → hi ≤ PyStr.len s → PyStr.len (PyStr.slice s lo hi) = hi - lo.
Proof.
  intros Hlo Hhi. unfold PyStr.slice, PyStr.adjust_index.
  destruct (Z.ltb_spec lo 0); [exfalso; lia|].
  destruct (Z.ltb_spec hi 0); [exfalso; lia|].
  unfold PyStr.len in *. rewrite length_substring; lia.
Qed.

Lemma len_slice_to (s : string) (n : Z) :
  0 ≤ n ≤ PyStr.len s → PyStr.len (PyStr.slice_to s n) = n.
Proof.
  intros Hn. unfold PyStr.slice_to. rewrite len_slice; lia.
Qed.

Lemma chr_ord (c : ascii) : PyStr.chr (PyStr.ord c) = Ok c.
Proof.
  unfold PyStr.chr, PyStr.ord.
  pose proof (N_ascii_bounded c) as Hb.
  destruct (Z.leb_spec 0 (Z.of_N (N_of_ascii c))); [|lia].
  destruct (Z.ltb_spec (Z.of_N (N_of_ascii c)) 256); [|lia].
  simpl. by rewrite N2Z.id, ascii_N_embedding.
Qed.

(** Re-encoding the decoded scores of a quality line gives the line back. *)
Lemma join_chr_decode (s : string) :
  PyStr.join_chr 33
    (map (fun c => PyStr.ord c - 33) (list_ascii_of_string s)) = Ok s.
Proof.
  induction s as [|c s IH]; simpl; [reflexivity|].
  replace (PyStr.ord c - 33 + 33) with (PyStr.ord c) by lia.
  rewrite chr_ord. simpl. rewrite IH. reflexivity.
Qed.

Lemma join_chr_phred (record : SeqRecord) :
  PyStr.join_chr 33 (phred_quality record) = Ok (rec_qual_line record).
Proof. apply join_chr_decode. Qed.

(** ** Dictionaries *)

Lemma pydict_get_set_eq (d : PyDict.t) (k : string) (v : Z) :
  PyDict.get (PyDict.set d k v) k = Some v.
Proof.
  induction d as [|[k' v'] d IH]; simpl.
  - by rewrite String.eqb_refl.
  - destruct (String.eqb_spec k' k) as [->|Hne]; simpl.
    + by rewrite String.eqb_refl.
    + by destruct (String.eqb_spec k' k).
Qed.

Lemma pydict_get_set_ne (d : PyDict.t) (k k' : string) (v : Z) :
  k ≠ k' → PyDict.get (PyDict.set d k v) k' = PyDict.get d k'.
Proof.
  intros Hne. induction d as [|[k0 v0] d IH]; simpl.
  - by destruct (String.eqb_spec k k').
  - destruct (String.eqb_spec k0 k) as [->|Hne0]; simpl.
    + by destruct (String.eqb_spec k k').
    + by rewrite IH.
Qed.

(** Assigning to a key keeps the keys distinct. *)
Lemma pydict_set_keys (d : PyDict.t) (k : string) (v : Z) :
  NoDup (map fst d) → NoDup (map fst (PyDict.set d k v)).
Proof.
  assert (Hkeys : ∀ d k', k' ∈ map fst (PyDict.set d k v) →
                          k' = k ∨ k' ∈ map fst d).
  { clear d. intros d k'. induction d as [|[k0 v0] d IH]; simpl.
    - intros Hin. apply list_elem_of_singleton in Hin. by left.
    - destruct (String.eqb_spec k0 k) as [->|Hne]; simpl.
      + intros Hin. by right.
      + intros [->|Hin]%elem_of_cons.
        * right. apply list_elem_of_here.
        * destruct (IH Hin) as [->|Hin']; [by left|].
          right. by apply list_elem_of_further. }
  induction d as [|[k0 v0] d IH]; simpl; intros Hnd.
  - apply NoDup_singleton.
  - apply NoDup_cons in Hnd as [Hnotin Hnd].
    destruct (String.eqb_spec k0 k) as [->|Hne]; simpl.
    + by apply NoDup_cons.
    + apply NoDup_cons. split; [|by apply IH].
      intros Hin. destruct (Hkeys _ _ Hin) as [->|Hin']; done.
Qed.

(** With distinct keys the rows are the graph of [get]. *)
Lemma pydict_get_elem_of (d : PyDict.t) (k : string) (v : Z) :
  NoDup (map fst d) → (k, v) ∈ d ↔ PyDict.get d k = Some v.
Proof.
  induction d as [|[k0 v0] d IH]; simpl; intros Hnd.
  - split; [by intros Hin%elem_of_nil|done].
  - apply NoDup_cons in Hnd as [Hnotin Hnd].
    rewrite elem_of_cons, (IH Hnd).
    destruct (String.eqb_spec k0 k) as [->|Hne].
    + split.
      * intros [[= ->]|Hget]; [done|].
        exfalso. apply Hnotin. apply (IH Hnd) in Hget.
        apply list_elem_of_fmap. by exists (k, v).
      * intros [= ->]. by left.
    + split; [|by right]. intros [[= -> ->]|Hget]; done.
Qed.

Lemma fold_left_add_acc (l : list Z) (a : Z) :
  fold_left Z.add l a = a + fold_left Z.add l 0.
Proof.
  revert a. induction l as [|x l IH]; intros a; simpl; [lia|].
  rewrite (IH (a + x)), (IH (0 + x)). lia.
Qed.

Lemma py_sum_cons (x : Z) (l : list Z) : py_sum (x :: l) = x + py_sum l.
Proof. unfold py_sum. simpl. apply fold_left_add_acc. Qed.

(** Assigning [v] to a key changes the sum of the values by the
    difference to the value it had (0 when it was absent). *)
Lemma py_sum_set (d : PyDict.t) (k : string) (v : Z) :
  py_sum (PyDict.values (PyDict.set d k v))
  = py_sum (PyDict.values d) + v - PyDict.get_default d k 0.
Proof.
  unfold PyDict.values, PyDict.get_default.
  induction d as [|[k0 v0] d IH]; simpl.
  - rewrite py_sum_cons. unfold py_sum. simpl. lia.
  - destruct (String.eqb_spec k0 k) as [->|Hne]; simpl.
    + rewrite !py_sum_cons. lia.
    + rewrite !py_sum_cons, IH. lia.
Qed.

(** ** The whitelist filter and header encoder *)

Lemma new_read_name_grammar (identity cb umi : string) :
  new_read_name identity cb umi = encoded_header identity cb umi "1".
Proof. reflexivity. Qed.

Section Read1.

Variable cb_list : gset string.
Variables cb_len umi_len : Z.

Local Abbreviation body := (process_read1_body cb_list cb_len umi_len).
Local Abbreviation rej := (rejected cb_list cb_len umi_len).

(** A rejected record is counted and leaves output, index and count table
    as they are. *)
Lemma process_read1_body_rejected (st : R1State) (record : SeqRecord) :
  rej record →
  body st record =
    Ok {| r1_out := r1_out st; cb_umi_dict := cb_umi_dict st;
          cb_count := cb_count st; total_reads := total_reads st + 1;
          invalid_cb_reads := invalid_cb_reads st + 1 |}.
Proof.
  intros Hrej. unfold process_read1_body.
  destruct (Z.ltb_spec (PyStr.len (rec_seq record)) (cb_len + umi_len));
    [reflexivity|].
  destruct Hrej as [Hshort|Hcb]; [lia|].
  unfold record_cb in Hcb. by rewrite decide_True.
Qed.

(** An accepted record is written under its encoded header with sequence
    and quality line unchanged, indexed, and counted under its barcode. *)
Lemma process_read1_body_accepted (st : R1State) (record : SeqRecord) :
  ¬ rej record →
  body st record =
    Ok {| r1_out := r1_out st ++ [mate1_entry cb_len umi_len record];
          cb_umi_dict :=
            <[rec_id record := mate1_header cb_len umi_len record]>
              (cb_umi_dict st);
          cb_count :=
            PyDict.set (cb_count st) (record_cb cb_len record)
              (PyDict.get_default (cb_count st) (record_cb cb_len record) 0 + 1);
          total_reads := total_reads st + 1;
          invalid_cb_reads := invalid_cb_reads st |}.
Proof.
  intros Hacc. unfold process_read1_body.
  destruct (Z.ltb_spec (PyStr.len (rec_seq record)) (cb_len + umi_len))
    as [Hshort|Hlong].
  { exfalso. apply Hacc. by left. }
  rewrite decide_False.
  2:{ intros Hnot. apply Hacc. by right. }
  rewrite join_chr_phred. reflexivity.
Qed.

Lemma process_read1_body_total (st : R1State) (record : SeqRecord) :
  ∃ st', body st record = Ok st'.
Proof.
  destruct (decide (rej record)) as [H|H].
  - rewrite (process_read1_body_rejected _ _ H). eauto.
  - rewrite (process_read1_body_accepted _ _ H). eauto.
Qed.

(** The barcode and the identifier of an accepted record have the
    configured lengths, and the barcode is whitelisted. *)
Lemma accepted_fields (record : SeqRecord) :
  0 ≤ cb_len → 0 ≤ umi_len → ¬ rej record →
  PyStr.len (record_cb cb_len record) = cb_len
  ∧ PyStr.len (record_umi cb_len umi_len record) = umi_len
  ∧ record_cb cb_len record ∈ cb_list.
Proof.
  intros Hcb Humi Hacc. unfold rejected in Hacc.
  assert (Hlen : ¬ PyStr.len (rec_seq record) < cb_len + umi_len) by tauto.
  assert (Hin : record_cb cb_len record ∈ cb_list).
  { apply dec_stable. tauto. }
  unfold record_cb, record_umi. split; [|split]; [| |done].
  - apply len_slice_to. lia.
  - rewrite len_slice; lia.
Qed.

(** The loop of [process_read1] from any state: it never raises; the
    output grows by the entries of the accepted records, in stream order;
    both counters grow by the numbers of records seen and rejected. *)
Lemma process_read1_loop (records : list SeqRecord) (st : R1State) :
  ∃ st', for_each body records st = Ok st'
    ∧ r1_out st' =
        r1_out st ++ map (mate1_entry cb_len umi_len)
                       (filter (fun r => ¬ rej r) records)
    ∧ total_reads st' = total_reads st + Z.of_nat (length records)
    ∧ invalid_cb_reads st' =
        invalid_cb_reads st + Z.of_nat (length (filter rej records)).
Proof.
  revert st. induction records as [|r records IH]; intros st.
  - exists st. simpl. rewrite app_nil_r. repeat split; lia.
  - simpl for_each. destruct (decide (rej r)) as [Hr|Hr].
    + rewrite (process_read1_body_rejected _ _ Hr). simpl bind.
      destruct (IH {| r1_out := r1_out st; cb_umi_dict := cb_umi_dict st;
          cb_count := cb_count st; total_reads := total_reads st + 1;
          invalid_cb_reads := invalid_cb_reads st + 1 |})
        as (st' & Hrun & Hout & Htot & Hinv).
      exists st'. split; [exact Hrun|]. simpl in Hout, Htot, Hinv.
      rewrite filter_cons_False by tauto. rewrite filter_cons_True by done.
      simpl length. repeat split; [done|lia|lia].
    + rewrite (process_read1_body_accepted _ _ Hr). simpl bind.
      match goal with |- context [for_each _ _ ?s] =>
        destruct (IH s) as (st' & Hrun & Hout & Htot & Hinv) end.
      exists st'. split; [exact Hrun|]. simpl in Hout, Htot, Hinv.
      rewrite filter_cons_True by done. rewrite filter_cons_False by done.
      simpl length. simpl map. rewrite <- app_assoc in Hout.
      repeat split; [done|lia|lia].
Qed.

End Read1.

(** C2. For non-negative configured lengths, one pass of the loop of
    [process_read1] never raises and treats a mate-1 record in one of two
    ways. It rejects it (the rejection counter grows by one, nothing is
    written, the index is unchanged) exactly when the sequence is shorter
    than [cb_len + umi_len] or its barcode slice is not in the whitelist.
    Otherwise it accepts it: the record is written and indexed, its
    barcode has length [cb_len], its identifier length [umi_len], and the
    barcode belongs to the whitelist. Over a whole stream the output holds
    the accepted records in order and the counters the numbers of records
    seen and rejected. *)
Theorem whitelist_filter_accepts_exactly
    (cb_list : gset string) (cb_len umi_len : Z) :
  0 ≤ cb_len → 0 ≤ umi_len →
  (∀ (st : R1State) (record : SeqRecord),
     ∃ st', process_read1_body cb_list cb_len umi_len st record = Ok st'
       ∧ total_reads st' = total_reads st + 1
       ∧ ((invalid_cb_reads st' = invalid_cb_reads st + 1
           ∧ r1_out st' = r1_out st
           ∧ cb_umi_dict st' = cb_umi_dict st
           ∧ cb_count st' = cb_count st)
          ↔ rejected cb_list cb_len umi_len record)
       ∧ (¬ rejected cb_list cb_len umi_len record →
          invalid_cb_reads st' = invalid_cb_reads st
          ∧ r1_out st' = r1_out st ++ [mate1_entry cb_len umi_len record]
          ∧ cb_umi_dict st' !! rec_id record
            = Some (mate1_header cb_len umi_len record)
          ∧ PyStr.len (record_cb cb_len record) = cb_len
          ∧ PyStr.len (record_umi cb_len umi_len record) = umi_len
          ∧ record_cb cb_len record ∈ cb_list))
  ∧ (∀ records : list SeqRecord,
     ∃ st', process_read1 records cb_list cb_len umi_len = Ok st'
       ∧ r1_out st' =
           map (mate1_entry cb_len umi_len)
             (filter (fun r => ¬ rejected cb_list cb_len umi_len r) records)
       ∧ total_reads st' = Z.of_nat (length records)
       ∧ invalid_cb_reads st' =
           Z.of_nat (length (filter (rejected cb_list cb_len umi_len) records))).
Proof.
  intros Hcb Humi. split.
  - intros st record.
    destruct (decide (rejected cb_list cb_len umi_len record)) as [Hr|Hr].
    + eexists. split; [by apply process_read1_body_rejected|]. simpl.
      split; [done|]. split; [tauto|tauto].
    + eexists. split; [by apply process_read1_body_accepted|]. simpl.
      split; [done|]. split.
      * split; [|tauto]. intros [Hinv _]. lia.
      * intros _. rewrite lookup_insert_eq.
        pose proof (accepted_fields cb_list cb_len umi_len record Hcb Humi Hr).
        tauto.
  - intros records.
    destruct (process_read1_loop cb_list cb_len umi_len records r1_init)
      as (st' & Hrun & Hout & Htot & Hinv).
    exists st'. split; [exact Hrun|]. simpl in Hout, Htot, Hinv.
    repeat split; [done|lia|lia].
Qed.

(** The scenario of the specification: whitelist [{AAAA}], barcode length
    4, identifier length 2; [AAAATTxxxx] is accepted with barcode [AAAA]
    and identifier [TT]. *)
Lemma whitelist_filter_accepts_exactly_witness :
  0 ≤ 4 ∧ 0 ≤ 2
  ∧ PyStr.len (record_cb 4 (mkSeqRecord "read1" "AAAATTxxxx" "IIIIIIIIII")) = 4
  ∧ PyStr.len (record_umi 4 2 (mkSeqRecord "read1" "AAAATTxxxx" "IIIIIIIIII")) = 2
  ∧ record_cb 4 (mkSeqRecord "read1" "AAAATTxxxx" "IIIIIIIIII")
    ∈ ({["AAAA"]} : gset string).
Proof.
  split; [lia|]. split; [lia|].
  destruct (whitelist_filter_accepts_exactly {["AAAA"]} 4 2) as [Hstep _];
    [lia|lia|].
  destruct (Hstep r1_init (mkSeqRecord "read1" "AAAATTxxxx" "IIIIIIIIII"))
    as (st' & _ & _ & _ & Hacc).
  apply Hacc. intros [Hshort|Hcb].
  - vm_compute in Hshort. discriminate.
  - apply Hcb. apply elem_of_singleton. reflexivity.
Defined.

(** ** Kept and rejected records add up *)



(** With a negative [cb_len] the slice [seq[:cb_len]] drops characters
    from the end, so the lengths of the fields are the configured ones
    only for lengths that are not negative. *)
Example negative_cb_len :
  record_cb (-1) (mkSeqRecord "read1" "AAAAT" "IIIII") = "AAAA".
Proof. reflexivity. Qed.

(** ** The identity-to-header index *)

Lemma for_each_app {St A : Type} (body : St → A → result St)
    (l1 l2 : list A) (s : St) :
  for_each body (l1 ++ l2) s
  = bind (for_each body l1 s) (for_each body l2).
Proof.
  revert s. induction l1 as [|x l1 IH]; intros s; simpl; [reflexivity|].
  destruct (body s x) as [s'|e]; simpl; [apply IH|reflexivity].
Qed.

Section Index.

Variable cb_list : gset string.
Variables cb_len umi_len : Z.

Local Abbreviation body := (process_read1_body cb_list cb_len umi_len).
Local Abbreviation rej := (rejected cb_list cb_len umi_len).

(** One pass changes the entry of an identity only when it accepts a
    record of that identity. *)
Lemma process_read1_body_index (st st' : R1State) (record : SeqRecord)
    (k : string) :
  body st record = Ok st' →
  cb_umi_dict st' !! k =
    if decide (¬ rej record ∧ rec_id record = k)
    then Some (mate1_header cb_len umi_len record)
    else cb_umi_dict st !! k.
Proof.
  intros Hrun. destruct (decide (rej record)) as [Hr|Hr].
  - rewrite (process_read1_body_rejected _ _ _ _ _ Hr) in Hrun.
    injection Hrun as <-. simpl. rewrite decide_False; [done|tauto].
  - rewrite (process_read1_body_accepted _ _ _ _ _ Hr) in Hrun.
    injection Hrun as <-. simpl.
    destruct (decide (rec_id record = k)) as [->|Hne].
    + rewrite decide_True by done. apply lookup_insert_eq.
    + rewrite decide_False by tauto. by apply lookup_insert_ne.
Qed.

(** Records that are rejected or bear other identities leave an entry as
    it is. *)
Lemma process_read1_loop_index_frame (records : list SeqRecord)
    (st st' : R1State) (k : string) :
  (∀ r, r ∈ records → ¬ rej r → rec_id r ≠ k) →
  for_each body records st = Ok st' →
  cb_umi_dict st' !! k = cb_umi_dict st !! k.
Proof.
  revert st. induction records as [|r records IH]; intros st Hother Hrun.
  - simpl in Hrun. by injection Hrun as <-.
  - simpl in Hrun.
    destruct (body st r) as [st1|e] eqn:Hstep; simpl in Hrun; [|done].
    rewrite (IH st1).
    + rewrite (process_read1_body_index _ _ _ k Hstep).
      rewrite decide_False; [done|]. intros [Hacc Hid].
      apply (Hother r); [apply list_elem_of_here|done|done].
    + intros r' Hin. apply Hother. by apply list_elem_of_further.
    + exact Hrun.
Qed.

(** Every entry of the index is the encoded header of an accepted record
    of that identity, or was there before the loop. *)
Lemma process_read1_loop_index_sound (records : list SeqRecord)
    (st st' : R1State) (k h : string) :
  for_each body records st = Ok st' →
  cb_umi_dict st' !! k = Some h →
  cb_umi_dict st !! k = Some h
  ∨ ∃ r, r ∈ records ∧ ¬ rej r ∧ rec_id r = k
         ∧ h = mate1_header cb_len umi_len r.
Proof.
  revert st. induction records as [|r records IH]; intros st Hrun Hk.
  - simpl in Hrun. injection Hrun as <-. by left.
  - simpl in Hrun.
    destruct (body st r) as [st1|e] eqn:Hstep; simpl in Hrun; [|done].
    destruct (IH st1 Hrun Hk) as [Hold|(r' & Hin & Hacc & Hid & Hh)].
    + rewrite (process_read1_body_index _ _ _ k Hstep) in Hold.
      destruct (decide (¬ rej r ∧ rec_id r = k)) as [[Hacc Hid]|_].
      * right. exists r. injection Hold as <-.
        split; [apply list_elem_of_here|done].
      * by left.
    + right. exists r'. split; [by apply list_elem_of_further|done].
Qed.

End Index.

(** C7. When an accepted mate-1 record is followed by no accepted record
    of the same identity, the index maps its identity to its own encoded
    header after the run, whatever came before it: a later occurrence of
    an identity overwrites the entries of the earlier ones. *)
Theorem index_keeps_last_occurrence
    (cb_list : gset string) (cb_len umi_len : Z)
    (before after : list SeqRecord) (record : SeqRecord) :
  ¬ rejected cb_list cb_len umi_len record →
  (∀ r, r ∈ after → ¬ rejected cb_list cb_len umi_len r →
        rec_id r ≠ rec_id record) →
  ∃ st', process_read1 (before ++ record :: after) cb_list cb_len umi_len
         = Ok st'
    ∧ cb_umi_dict st' !! rec_id record
      = Some (new_read_name (rec_id record) (record_cb cb_len record)
                (record_umi cb_len umi_len record)).
Proof.
  intros Hacc Hlast. unfold process_read1. rewrite for_each_app.
  destruct (process_read1_loop cb_list cb_len umi_len before r1_init)
    as (st1 & Hrun1 & _).
  rewrite Hrun1. simpl.
  rewrite (process_read1_body_accepted _ _ _ _ _ Hacc). simpl bind.
  match goal with |- context [for_each _ _ ?s] =>
    destruct (process_read1_loop cb_list cb_len umi_len after s)
      as (st' & Hrun & _) end.
  exists st'. split; [exact Hrun|].
  rewrite (process_read1_loop_index_frame _ _ _ _ _ _ _ Hlast Hrun).
  simpl. apply lookup_insert_eq.
Qed.

(** Two accepted records of identity [dup]: the entry is the header of the
    second one. *)
Lemma index_keeps_last_occurrence_witness :
  ¬ rejected {["AAAA"]} 4 2 (mkSeqRecord "dup" "AAAAGGyyyy" "IIIIIIIIII")
  ∧ ∃ st',
      process_read1
        ([mkSeqRecord "dup" "AAAATTxxxx" "IIIIIIIIII"]
           ++ mkSeqRecord "dup" "AAAAGGyyyy" "IIIIIIIIII" :: [])
        {["AAAA"]} 4 2 = Ok st'
      ∧ cb_umi_dict st' !! "dup" = Some "@dup_AAAA_GG 1:N:0:GG".
Proof.
  assert (Hacc : ¬ rejected {["AAAA"]} 4 2
                   (mkSeqRecord "dup" "AAAAGGyyyy" "IIIIIIIIII")).
  { intros [Hshort|Hcb].
    - vm_compute in Hshort. discriminate.
    - apply Hcb. apply elem_of_singleton. reflexivity. }
  split; [exact Hacc|].
  apply (index_keeps_last_occurrence {["AAAA"]} 4 2
           [mkSeqRecord "dup" "AAAATTxxxx" "IIIIIIIIII"] []
           (mkSeqRecord "dup" "AAAAGGyyyy" "IIIIIIIIII")).
  - exact Hacc.
  - intros r Hin. inversion Hin.
Defined.

(** ** The mate marker *)

Lemma string_app_cons (c : ascii) (s t : string) :
  String c s +:+ t = String c (s +:+ t).
Proof. reflexivity. Qed.

Lemma string_app_assoc (s t u : string) : (s +:+ t) +:+ u = s +:+ (t +:+ u).
Proof.
  induction s as [|c s IH]; [reflexivity|].
  rewrite !string_app_cons. by rewrite IH.
Qed.

Lemma string_app_nil_r (s : string) : s +:+ EmptyString = s.
Proof.
  induction s as [|c s IH]; [reflexivity|].
  rewrite string_app_cons. by rewrite IH.
Qed.

Lemma has_char_app (c : ascii) (s t : string) :
  has_char c (s +:+ t) = has_char c s || has_char c t.
Proof.
  induction s as [|c' s IH]; [reflexivity|].
  rewrite string_app_cons. simpl. rewrite IH. by rewrite orb_assoc.
Qed.

Lemma has_char_substring (c : ascii) (s : string) (n m : nat) :
  has_char c s = false → has_char c (substring n m s) = false.
Proof.
  revert n m. induction s as [|c' s IH]; intros n m Hs.
  - by destruct n, m.
  - simpl in Hs. apply orb_false_iff in Hs as [Hc Hs].
    destruct n as [|n]; simpl.
    + destruct m as [|m]; simpl; [done|]. rewrite Hc. by apply IH.
    + by apply IH.
Qed.

Lemma has_char_slice (c : ascii) (s : string) (lo hi : Z) :
  has_char c s = false → has_char c (PyStr.slice s lo hi) = false.
Proof. apply has_char_substring. Qed.

Lemma prefix_head_ne (a b : ascii) (s t : string) :
  a ≠ b → String.prefix (String a s) (String b t) = false.
Proof.
  intros Hne. simpl. destruct (ascii_dec a b); [done|reflexivity].
Qed.

(** A stretch without a space holds no occurrence of the first-mate
    marker, and none can start in it. *)
Lemma replace_from_space_free (tag : string) (pre rest : string) :
  has_char " " pre = false →
  PyStr.replace_from " 1:N:0:" tag 0 (pre +:+ rest)
  = pre +:+ PyStr.replace_from " 1:N:0:" tag 0 rest.
Proof.
  induction pre as [|c pre IH]; intros Hpre; [reflexivity|].
  simpl in Hpre. apply orb_false_iff in Hpre as [Hc Hpre].
  apply Ascii.eqb_neq in Hc.
  rewrite !string_app_cons. cbn [PyStr.replace_from].
  rewrite prefix_head_ne by congruence. by rewrite IH.
Qed.

Lemma replace_from_space_free_all (tag s : string) :
  has_char " " s = false → PyStr.replace_from " 1:N:0:" tag 0 s = s.
Proof.
  intros Hs. rewrite <- (string_app_nil_r s) at 1.
  rewrite replace_from_space_free by done. apply string_app_nil_r.
Qed.

Lemma replace_from_marker (tag rest : string) :
  PyStr.replace_from " 1:N:0:" tag 0 (" 1:N:0:" +:+ rest)
  = tag +:+ PyStr.replace_from " 1:N:0:" tag 0 rest.
Proof. destruct rest; reflexivity. Qed.

(** In an encoded header whose fields hold no space, the marker occurs
    once: replacing it changes the mate tag and nothing else. *)
Lemma replace_mate_marker (identity cb umi : string) :
  has_char " " identity = false →
  has_char " " cb = false →
  has_char " " umi = false →
  PyStr.replace (encoded_header identity cb umi "1") " 1:N:0:" " 2:N:0:"
  = encoded_header identity cb umi "2".
Proof.
  intros Hid Hcb Humi. unfold PyStr.replace.
  change (encoded_header identity cb umi "1")
    with ("@" +:+ identity +:+ "_" +:+ cb +:+ "_" +:+ umi +:+ " 1:N:0:" +:+ umi).
  change (encoded_header identity cb umi "2")
    with ("@" +:+ identity +:+ "_" +:+ cb +:+ "_" +:+ umi +:+ " 2:N:0:" +:+ umi).
  rewrite (replace_from_space_free _ "@") by reflexivity.
  rewrite replace_from_space_free by done.
  rewrite (replace_from_space_free _ "_") by reflexivity.
  rewrite replace_from_space_free by done.
  rewrite (replace_from_space_free _ "_") by reflexivity.
  rewrite replace_from_space_free by done.
  rewrite replace_from_marker.
  by rewrite replace_from_space_free_all.
Qed.

(** ** The mate synchroniser *)

Section Read2.

Variable index : gmap string string.

Local Abbreviation body := (process_read2_body index).

Lemma process_read2_body_missing (st : R2State) (record : SeqRecord) :
  index !! rec_id record = None →
  body st record
  = Ok {| r2_out := r2_out st; missing_r2 := missing_r2 st + 1 |}.
Proof. intros Hnone. unfold process_read2_body. by rewrite Hnone. Qed.

Lemma process_read2_body_matched (st : R2State) (record : SeqRecord)
    (h : string) :
  index !! rec_id record = Some h →
  body st record
  = Ok {| r2_out := r2_out st ++ [mate2_entry h record];
          missing_r2 := missing_r2 st |}.
Proof.
  intros Hsome. unfold process_read2_body. rewrite Hsome.
  by rewrite join_chr_phred.
Qed.

Lemma process_read2_loop (records : list SeqRecord) (st : R2State) :
  ∃ st' out, for_each body records st = Ok st'
    ∧ r2_out st' = r2_out st ++ out
    ∧ written_for index (matched index records) out
    ∧ Z.of_nat (length out) + (missing_r2 st' - missing_r2 st)
      = Z.of_nat (length records).
Proof.
  revert st. induction records as [|r records IH]; intros st.
  - exists st, []. simpl. rewrite app_nil_r.
    repeat split; [constructor|lia].
  - simpl for_each. unfold matched.
    destruct (index !! rec_id r) as [h|] eqn:Hr.
    + rewrite (process_read2_body_matched _ _ _ Hr). simpl bind.
      match goal with |- context [for_each _ _ ?s] =>
        destruct (IH s) as (st' & out & Hrun & Hout & Hw & Hn) end.
      exists st', (mate2_entry h r :: out). simpl in Hout, Hn.
      split; [exact Hrun|]. split; [by rewrite <- app_assoc in Hout|].
      split.
      * rewrite filter_cons_True by (rewrite Hr; eauto).
        constructor; [eauto|exact Hw].
      * simpl length. lia.
    + rewrite (process_read2_body_missing _ _ Hr). simpl bind.
      match goal with |- context [for_each _ _ ?s] =>
        destruct (IH s) as (st' & out & Hrun & Hout & Hw & Hn) end.
      exists st', out. simpl in Hout, Hn.
      split; [exact Hrun|]. split; [exact Hout|]. split.
      * rewrite filter_cons_False; [exact Hw|].
        rewrite Hr. by intros [? ?].
      * simpl length. lia.
Qed.

End Read2.

(** C4. [process_read2] never raises. What it writes is one entry per
    mate-2 record whose identity is a key of the index, in stream order,
    and none for the others; the records written and the records counted
    as missing add up to the records seen. In one pass of the loop a
    record is either written (and not counted) or counted (and not
    written). *)
Theorem mate2_emitted_or_missing (index : gmap string string) :
  (∀ records : list SeqRecord,
     ∃ st', process_read2 records index = Ok st'
       ∧ written_for index (matched index records) (r2_out st')
       ∧ Z.of_nat (length (r2_out st')) + missing_r2 st'
         = Z.of_nat (length records))
  ∧ (∀ (st : R2State) (record : SeqRecord),
     ∃ st', process_read2_body index st record = Ok st'
       ∧ ((rec_id record ∈ dom index
           ∧ length (r2_out st') = S (length (r2_out st))
           ∧ missing_r2 st' = missing_r2 st)
          ∨ ((rec_id record ∉ dom index)
             ∧ r2_out st' = r2_out st
             ∧ missing_r2 st' = missing_r2 st + 1))).
Proof.
  split.
  - intros records.
    destruct (process_read2_loop index records r2_init)
      as (st' & out & Hrun & Hout & Hw & Hn).
    exists st'. simpl in Hout, Hn. subst out.
    split; [exact Hrun|]. split; [exact Hw|lia].
  - intros st record. destruct (index !! rec_id record) as [h|] eqn:Hr.
    + eexists. split; [by apply process_read2_body_matched|]. left. simpl.
      split; [(apply elem_of_dom; eauto)|].
      split; [|done]. rewrite length_app. simpl. lia.
    + eexists. split; [by apply process_read2_body_missing|]. right. simpl.
      split; [by apply not_elem_of_dom|done].
Qed.

(** The scenario of the specification: [read7] is not a key of the index,
    so it is dropped and counted, and nothing is written for it. *)
Example read7_is_missing :
  process_read2 [mkSeqRecord "read7" "GGGG" "IIII"]
    {["read1" := "@read1_AAAA_TT 1:N:0:TT"]}
  = Ok {| r2_out := []; missing_r2 := 1 |}.
Proof. reflexivity. Qed.

Example read1_is_matched :
  process_read2 [mkSeqRecord "read1" "GGGG" "IIII"]
    {["read1" := "@read1_AAAA_TT 1:N:0:TT"]}
  = Ok {| r2_out :=
            ["@read1_AAAA_TT 2:N:0:TT" +:+ PyStr.nl +:+ "GGGG" +:+ PyStr.nl
               +:+ "+" +:+ PyStr.nl +:+ "IIII" +:+ PyStr.nl];
          missing_r2 := 0 |}.
Proof. reflexivity. Qed.

(** C6. Re-encoding the decoded scores of a record's quality line with
    [chr(q + 33)] never raises and gives the line back; the entry written
    for an accepted mate-1 record and the entry written for a matched
    mate-2 record both end in the record's own quality line. *)
Theorem quality_round_trip (record : SeqRecord) :
  PyStr.join_chr 33 (phred_quality record) = Ok (rec_qual_line record)
  ∧ (∀ (cb_list : gset string) (cb_len umi_len : Z) (st : R1State),
       ¬ rejected cb_list cb_len umi_len record →
       ∃ st', process_read1_body cb_list cb_len umi_len st record = Ok st'
         ∧ r1_out st' =
             r1_out st ++
               [fastq_entry
                  (new_read_name (rec_id record) (record_cb cb_len record)
                     (record_umi cb_len umi_len record))
                  (rec_seq record) (rec_qual_line record)])
  ∧ (∀ (index : gmap string string) (st : R2State) (h : string),
       index !! rec_id record = Some h →
       ∃ st', process_read2_body index st record = Ok st'
         ∧ r2_out st' =
             r2_out st ++
               [fastq_entry (PyStr.replace h " 1:N:0:" " 2:N:0:")
                  (rec_seq record) (rec_qual_line record)]).
Proof.
  split; [apply join_chr_phred|]. split.
  - intros cb_list cb_len umi_len st Hacc. eexists.
    split; [by apply process_read1_body_accepted|]. reflexivity.
  - intros index st h Hh. eexists.
    split; [by apply process_read2_body_matched|]. reflexivity.
Qed.

Example quality_line_decoded :
  phred_quality (mkSeqRecord "read1" "ACGT" "!5I~") = [0; 20; 40; 93].
Proof. reflexivity. Qed.

(** C3. For mate-1 records whose identifiers and sequences hold no space
    (as the reader yields them), [process_read1] writes every accepted
    record under the header [@<identity>_<CB>_<UMI> 1:N:0:<UMI>] with its
    sequence and quality line. For a mate-2 record whose identity is a key
    of the resulting index, the indexed header is the mate-1 header of an
    accepted record of that identity, and [process_read2] writes the
    mate-2 record's own sequence and quality line under
    [@<identity>_<CB>_<UMI> 2:N:0:<UMI>], with the same identity, barcode
    and identifier. *)
Theorem encoded_headers_follow_grammar
    (cb_list : gset string) (cb_len umi_len : Z) (in1 : list SeqRecord) :
  forallb space_free in1 = true →
  ∃ r1, process_read1 in1 cb_list cb_len umi_len = Ok r1
    ∧ r1_out r1 =
        map (fun m1 =>
               fastq_entry
                 (encoded_header (rec_id m1) (record_cb cb_len m1)
                    (record_umi cb_len umi_len m1) "1")
                 (rec_seq m1) (rec_qual_line m1))
          (filter (fun r => ¬ rejected cb_list cb_len umi_len r) in1)
    ∧ ∀ (st : R2State) (record : SeqRecord),
        rec_id record ∈ dom (cb_umi_dict r1) →
        ∃ m1, m1 ∈ in1 ∧ ¬ rejected cb_list cb_len umi_len m1
          ∧ rec_id m1 = rec_id record
          ∧ cb_umi_dict r1 !! rec_id record =
              Some (encoded_header (rec_id record) (record_cb cb_len m1)
                      (record_umi cb_len umi_len m1) "1")
          ∧ process_read2_body (cb_umi_dict r1) st record =
              Ok {| r2_out :=
                      r2_out st ++
                        [fastq_entry
                           (encoded_header (rec_id record)
                              (record_cb cb_len m1)
                              (record_umi cb_len umi_len m1) "2")
                           (rec_seq record) (rec_qual_line record)];
                    missing_r2 := missing_r2 st |}.
Proof.
  intros Hfree.
  destruct (process_read1_loop cb_list cb_len umi_len in1 r1_init)
    as (r1 & Hrun & Hout & _).
  exists r1. split; [exact Hrun|]. split; [exact Hout|].
  intros st record [h Hh]%elem_of_dom.
  destruct (process_read1_loop_index_sound _ _ _ _ _ _ _ _ Hrun Hh)
    as [Hold|(m1 & Hin & Hacc & Hid & ->)].
  { simpl in Hold. by rewrite lookup_empty in Hold. }
  exists m1. split; [exact Hin|]. split; [exact Hacc|]. split; [exact Hid|].
  unfold mate1_header in Hh. rewrite Hid in Hh.
  split; [exact Hh|].
  rewrite (process_read2_body_matched _ _ _ _ Hh). unfold mate2_entry.
  assert (Hm1 : space_free m1 = true).
  { rewrite forallb_forall in Hfree. apply Hfree. by apply list_elem_of_In. }
  unfold space_free in Hm1.
  apply andb_true_iff in Hm1 as [Hsid Hsseq].
  apply negb_true_iff in Hsid, Hsseq.
  rewrite replace_mate_marker; [reflexivity| | |].
  - by rewrite <- Hid.
  - by apply has_char_slice.
  - by apply has_char_slice.
Qed.

(** One accepted mate-1 record [read1] with barcode [AAAA] and identifier
    [TT], and its mate. *)
Lemma encoded_headers_follow_grammar_witness :
  forallb space_free [mkSeqRecord "read1" "AAAATTxxxx" "IIIIIIIIII"] = true
  ∧ ∃ r1,
      process_read1 [mkSeqRecord "read1" "AAAATTxxxx" "IIIIIIIIII"]
        {["AAAA"]} 4 2 = Ok r1
      ∧ r1_out r1 =
          [fastq_entry "@read1_AAAA_TT 1:N:0:TT" "AAAATTxxxx" "IIIIIIIIII"]
      ∧ process_read2_body (cb_umi_dict r1) r2_init
          (mkSeqRecord "read1" "GGGG" "JJJJ")
        = Ok {| r2_out :=
                  [fastq_entry "@read1_AAAA_TT 2:N:0:TT" "GGGG" "JJJJ"];
                missing_r2 := 0 |}.
Proof.
  split; [reflexivity|].
  destruct (encoded_headers_follow_grammar {["AAAA"]} 4 2
              [mkSeqRecord "read1" "AAAATTxxxx" "IIIIIIIIII"] eq_refl)
    as (r1 & Hrun & Hout & Hmate).
  exists r1. split; [exact Hrun|]. split; [exact Hout|].
  destruct (Hmate r2_init (mkSeqRecord "read1" "GGGG" "JJJJ"))
    as (m1 & Hin & _ & _ & _ & Hbody).
  { vm_compute in Hrun. injection Hrun as <-. apply elem_of_dom.
    eexists. reflexivity. }
  apply list_elem_of_singleton in Hin. subst m1.
  rewrite Hbody. reflexivity.
Defined.

(** ** The summary *)

(** C1 (the code departs from the claim). With no mate-1 record seen,
    [write_cb_summary] divides by zero: it raises [ZeroDivisionError]
    whatever its other arguments are, and so does the whole run on an
    empty mate-1 stream. *)
Theorem write_cb_summary_zero_total_raises :
  (∀ (cb_count : PyDict.t) (invalid_cb_reads missing_r2 : Z)
     (prefix : string),
     write_cb_summary cb_count 0 invalid_cb_reads missing_r2 prefix
     = Raise ZeroDivisionError)
  ∧ (∀ (cb_list : gset string) (in2 : list SeqRecord) (cb_len umi_len : Z)
       (prefix : string),
     add_cb_umi_main cb_list [] in2 cb_len umi_len prefix
     = Raise ZeroDivisionError).
Proof.
  split.
  - intros. reflexivity.
  - intros cb_list in2 cb_len umi_len prefix. unfold add_cb_umi_main.
    simpl process_read1. simpl bind at 1.
    destruct (process_read2_loop ∅ in2 r2_init) as (st' & out & Hrun & _).
    unfold process_read2. simpl cb_umi_dict. rewrite Hrun. reflexivity.
Qed.

(** The ratios of [compute_mcpg_consistency.py] carry the guard that
    [write_cb_summary] lacks: they never raise. *)
Lemma mcpg_ratio_total (num den : Z) : ∃ q, mcpg_ratio num den = Ok q.
Proof.
  unfold mcpg_ratio, py_truediv. destruct (Z.gtb_spec den 0); [|eauto].
  destruct (Z.eqb_spec den 0); [lia|eauto].
Qed.

Lemma mcpg_ratio_zero (num : Z) : mcpg_ratio num 0 = Ok 0%Q.
Proof. reflexivity. Qed.

(** With at least one record seen the summary is produced. *)
Lemma write_cb_summary_nonzero_total (cb_count : PyDict.t)
    (total_reads invalid_cb_reads missing_r2 : Z) (prefix : string) :
  total_reads ≠ 0 →
  ∃ s, write_cb_summary cb_count total_reads invalid_cb_reads missing_r2
         prefix = Ok s
    ∧ sum_total_reads s = total_reads
    ∧ sum_kept_reads s = py_sum (PyDict.values cb_count).
Proof.
  intros Hnz. unfold write_cb_summary, py_truediv.
  destruct (Z.eqb_spec total_reads 0) as [->|_]; [done|].
  eexists. simpl. eauto.
Qed.

(** Equal counts keep the order of the count table. *)
Example sorted_rows_stable :
  sorted_by_count_desc [("a", 1); ("b", 2); ("c", 1); ("d", 2)]
  = [("b", 2); ("d", 2); ("a", 1); ("c", 1)].
Proof. reflexivity. Qed.

Example summary_of_four_reads :
  ∃ s, write_cb_summary [("AAAA", 1); ("CCCC", 2)] 4 1 0 "run" = Ok s
    ∧ sum_kept_reads s = 3
    ∧ Qeq (sum_kept_ratio s) (3 # 4)
    ∧ sum_path s = "run_cell_barcode_info.txt"
    ∧ sum_rows s = [("CCCC", 2); ("AAAA", 1)].
Proof. eexists. split; [reflexivity|]. simpl. repeat split. Qed.

(** ** The barcode router *)

Lemma string_app_inj_r (s1 s2 t : string) : s1 +:+ t = s2 +:+ t → s1 = s2.
Proof.
  intros Heq.
  assert (Hl : ∀ a b, list_ascii_of_string (a +:+ b)
                      = list_ascii_of_string a ++ list_ascii_of_string b).
  { intros a b. induction a as [|c a IH]; [reflexivity|].
    rewrite string_app_cons. simpl. by rewrite IH. }
  apply (f_equal list_ascii_of_string) in Heq. rewrite !Hl in Heq.
  apply app_inv_tail in Heq.
  rewrite <- (string_of_list_ascii_of_string s1).
  rewrite <- (string_of_list_ascii_of_string s2). by rewrite Heq.
Qed.

Lemma prefix_empty (s : string) : String.prefix EmptyString s = true.
Proof. by destruct s. Qed.

Lemma prefix_cons (a b : ascii) (s t : string) :
  String.prefix (String a s) (String b t)
  = if ascii_dec a b then String.prefix s t else false.
Proof. reflexivity. Qed.

(** Whether a file name starts with a slash depends on [basename] alone. *)
Lemma prefix_slash_name (basename rest1 rest2 : string) :
  String.prefix "/" (basename +:+ "_" +:+ rest1)
  = String.prefix "/" (basename +:+ "_" +:+ rest2).
Proof.
  destruct basename as [|c basename]; [reflexivity|].
  rewrite !string_app_cons, !prefix_cons.
  destruct (ascii_dec "/" c); [|reflexivity]. by rewrite !prefix_empty.
Qed.

Lemma os_path_join_output_dir (name : string) :
  os_path_join output_dir name
  = if String.prefix "/" name then name else "split_bam_files_sam/" +:+ name.
Proof. unfold os_path_join. by destruct (String.prefix "/" name). Qed.

(** Distinct barcodes have distinct partitions. *)
Lemma out_path_inj (basename cb1 cb2 : string) :
  out_path basename cb1 = out_path basename cb2 → cb1 = cb2.
Proof.
  unfold out_path. rewrite !os_path_join_output_dir.
  rewrite (prefix_slash_name basename (cb1 +:+ ".sam") (cb2 +:+ ".sam")).
  destruct (String.prefix "/" (basename +:+ "_" +:+ cb2 +:+ ".sam"));
    intros Heq.
  - apply (inj (String.app basename)) in Heq.
    apply (inj (String.app "_")) in Heq. by apply string_app_inj_r in Heq.
  - apply (inj (String.app "split_bam_files_sam/")) in Heq.
    apply (inj (String.app basename)) in Heq.
    apply (inj (String.app "_")) in Heq. by apply string_app_inj_r in Heq.
Qed.

Lemma sam_lines_app (l1 l2 : list AlignedSegment) :
  sam_lines (l1 ++ l2) = sam_lines l1 +:+ sam_lines l2.
Proof.
  induction l1 as [|r l1 IH]; [reflexivity|].
  simpl. rewrite IH. by rewrite !string_app_assoc.
Qed.

Lemma routed_to_snoc (cb : string) (reads : list AlignedSegment)
    (read : AlignedSegment) :
  routed_to cb (reads ++ [read])
  = routed_to cb reads ++
      (if decide (extract_cb_from_read_name (query_name read) = Some cb)
       then [read] else []).
Proof.
  unfold routed_to. rewrite filter_app.
  destruct (decide (extract_cb_from_read_name (query_name read) = Some cb)).
  - by rewrite filter_cons_True.
  - by rewrite filter_cons_False.
Qed.

(** The rule of [extract_cb_from_read_name]: no barcode below four fields,
    the first field otherwise. *)
Lemma extract_cb_spec (read_name : string) :
  (length (PyStr.split "_" read_name) < 4)%nat
  ∧ extract_cb_from_read_name read_name = None
  ∨ (4 ≤ length (PyStr.split "_" read_name))%nat
    ∧ extract_cb_from_read_name read_name
      = head (PyStr.split "_" read_name).
Proof.
  unfold extract_cb_from_read_name.
  destruct (Z.ltb_spec (Z.of_nat (length (PyStr.split "_" read_name))) 4)
    as [Hlt|Hge].
  - left. split; [lia|done].
  - right. split; [lia|].
    destruct (PyStr.split "_" read_name); [simpl in Hge; lia|done].
Qed.

Section Router.

Variable can_open : string → bool.
Variables header_text basename : string.

Local Abbreviation step := (route_body can_open header_text basename).

(** A record without a barcode is reported and skipped. *)
Lemma route_body_unroutable (st : RouterState) (read : AlignedSegment) :
  extract_cb_from_read_name (query_name read) = None →
  step st read =
    Ok {| written_cbs := written_cbs st; files := files st;
          warnings := warnings st ++
            ["[WARN] Failed to parse CB from read: " +:+ query_name read] |}.
Proof. intros Hcb. unfold route_body. by rewrite Hcb. Qed.

(** The first record of a barcode creates the partition: the header block,
    then the record; the run ends when the partition cannot be opened. *)
Lemma route_body_first (st : RouterState) (read : AlignedSegment)
    (cb : string) :
  extract_cb_from_read_name (query_name read) = Some cb →
  cb ∉ written_cbs st →
  step st read =
    if can_open (out_path basename cb) then
      Ok {| written_cbs := {[cb]} ∪ written_cbs st;
            files := <[out_path basename cb :=
                         header_text +:+ (to_string read +:+ PyStr.nl)]>
                       (files st);
            warnings := warnings st |}
    else Raise OSError.
Proof.
  intros Hcb Hnew. unfold route_body, write_file. rewrite Hcb.
  rewrite decide_True by done. by destruct (can_open _).
Qed.

(** A later record of a barcode is appended to the partition. *)
Lemma route_body_later (st : RouterState) (read : AlignedSegment)
    (cb : string) :
  extract_cb_from_read_name (query_name read) = Some cb →
  cb ∈ written_cbs st →
  step st read =
    if can_open (out_path basename cb) then
      Ok {| written_cbs := written_cbs st;
            files := <[out_path basename cb :=
                         default EmptyString (files st !! out_path basename cb)
                           +:+ (to_string read +:+ PyStr.nl)]> (files st);
            warnings := warnings st |}
    else Raise OSError.
Proof.
  intros Hcb Hold. unfold route_body, append_file. rewrite Hcb.
  rewrite decide_False by (by intros Hnot). by destruct (can_open _).
Qed.

(** A record whose partition cannot be opened ends the run. *)
Lemma route_body_blocked (st : RouterState) (read : AlignedSegment) :
  openable can_open basename read = false →
  step st read = Raise OSError.
Proof.
  unfold openable. intros Hopen.
  destruct (extract_cb_from_read_name (query_name read)) as [cb|] eqn:Hcb;
    [|done].
  destruct (decide (cb ∈ written_cbs st)) as [Hold|Hnew].
  - by rewrite (route_body_later _ _ _ Hcb Hold), Hopen.
  - by rewrite (route_body_first _ _ _ Hcb Hnew), Hopen.
Qed.

Variable fs : gmap string string.

Local Abbreviation inv := (router_inv header_text basename fs).

Lemma router_inv_start :
  inv [] {| written_cbs := ∅; files := fs; warnings := [] |}.
Proof. split; [|split; [|split]]; done. Qed.

(** An iteration that does not raise keeps the invariant. *)
Lemma route_body_preserves (reads : list AlignedSegment) (st : RouterState)
    (read : AlignedSegment) :
  inv reads st →
  openable can_open basename read = true →
  ∃ st', step st read = Ok st' ∧ inv (reads ++ [read]) st'.
Proof.
  intros (Hset & Hfile & Hframe & Hwarn). unfold openable. intros Hopen.
  destruct (extract_cb_from_read_name (query_name read)) as [cb|] eqn:Hcb.
  - (* a routable record *)
    assert (Hsame : ∀ cb', cb' ≠ cb →
              routed_to cb' (reads ++ [read]) = routed_to cb' reads).
    { intros cb' Hne. rewrite routed_to_snoc, Hcb.
      rewrite decide_False by congruence. apply app_nil_r. }
    assert (Hmore : routed_to cb (reads ++ [read])
                    = routed_to cb reads ++ [read]).
    { rewrite routed_to_snoc, Hcb. by rewrite decide_True. }
    assert (Hne_more : routed_to cb (reads ++ [read]) ≠ []).
    { rewrite Hmore. by destruct (routed_to cb reads). }
    assert (Hwarn' :
      filter (fun r => extract_cb_from_read_name (query_name r) = None)
        (reads ++ [read])
      = filter (fun r => extract_cb_from_read_name (query_name r) = None)
          reads).
    { rewrite filter_app, filter_cons_False by congruence.
      apply app_nil_r. }
    destruct (decide (cb ∈ written_cbs st)) as [Hold|Hnew].
    + (* later occurrence: the record is appended *)
      rewrite (route_body_later _ _ _ Hcb Hold), Hopen.
      eexists. split; [reflexivity|]. unfold router_inv. simpl.
      rewrite Hwarn'.
      assert (Hsome : routed_to cb reads ≠ []) by by apply Hset.
      split; [|split; [|split; [|exact Hwarn]]].
      * intros cb'. destruct (decide (cb' = cb)) as [->|Hne]; [done|].
        by rewrite (Hsame _ Hne), <- Hset.
      * intros cb' Hcb'.
        destruct (decide (cb' = cb)) as [->|Hne].
        -- rewrite lookup_insert_eq, (Hfile _ Hsome), Hmore. simpl.
           rewrite sam_lines_app. simpl.
           by rewrite string_app_nil_r, !string_app_assoc.
        -- rewrite lookup_insert_ne.
           2:{ intros Heq. by apply out_path_inj in Heq. }
           rewrite (Hsame _ Hne) in *. by apply Hfile.
      * intros p Hp. rewrite lookup_insert_ne.
        2:{ intros Heq. by apply (Hp cb). }
        apply Hframe. intros cb' Hcb'. apply Hp.
        destruct (decide (cb' = cb)) as [->|Hne]; [done|].
        by rewrite (Hsame _ Hne).
    + (* first occurrence: header, then the record *)
      rewrite (route_body_first _ _ _ Hcb Hnew), Hopen.
      eexists. split; [reflexivity|]. unfold router_inv. simpl.
      rewrite Hwarn'.
      assert (Hnone : routed_to cb reads = []).
      { destruct (routed_to cb reads) eqn:Hr; [done|].
        exfalso. apply Hnew. apply Hset. by rewrite Hr. }
      split; [|split; [|split; [|exact Hwarn]]].
      * intros cb'. destruct (decide (cb' = cb)) as [->|Hne].
        -- split; [done|]. intros _.
           apply elem_of_union. left. by apply elem_of_singleton.
        -- rewrite (Hsame _ Hne), <- Hset.
           rewrite elem_of_union, elem_of_singleton. tauto.
      * intros cb' Hcb'.
        destruct (decide (cb' = cb)) as [->|Hne].
        -- rewrite lookup_insert_eq, Hmore, Hnone. simpl.
           by rewrite string_app_nil_r.
        -- rewrite lookup_insert_ne.
           2:{ intros Heq. by apply out_path_inj in Heq. }
           rewrite (Hsame _ Hne) in *. by apply Hfile.
      * intros p Hp. rewrite lookup_insert_ne.
        2:{ intros Heq. by apply (Hp cb). }
        apply Hframe. intros cb' Hcb'. apply Hp.
        destruct (decide (cb' = cb)) as [->|Hne]; [done|].
        by rewrite (Hsame _ Hne).
  - (* an unroutable record: a warning, nothing else *)
    rewrite (route_body_unroutable _ _ Hcb).
    eexists. split; [reflexivity|]. unfold router_inv. simpl.
    assert (Hsame : ∀ cb', routed_to cb' (reads ++ [read])
                           = routed_to cb' reads).
    { intros cb'. rewrite routed_to_snoc, Hcb.
      rewrite decide_False by congruence. apply app_nil_r. }
    split; [|split; [|split]].
    + intros cb'. by rewrite Hsame.
    + intros cb' Hcb'. rewrite Hsame in *. by apply Hfile.
    + intros p Hp. apply Hframe. intros cb' Hcb'. apply Hp.
      by rewrite Hsame.
    + rewrite filter_app, filter_cons_True by done.
      rewrite !length_app. simpl. by rewrite Hwarn.
Qed.

(** The loop goes through the records that stand before the first one
    whose partition cannot be opened, and raises when there is one. *)
Lemma route_loop_from (reads done : list AlignedSegment) (st : RouterState) :
  inv done st →
  inv (done ++ processed can_open basename reads)
    (fst (route_loop can_open header_text basename reads st))
  ∧ snd (route_loop can_open header_text basename reads st)
    = if forallb (openable can_open basename) reads then None
      else Some OSError.
Proof.
  revert done st. induction reads as [|read reads IH]; intros done st Hinv.
  - simpl. by rewrite app_nil_r.
  - cbn [route_loop processed forallb].
    destruct (openable can_open basename read) eqn:Hopen.
    + destruct (route_body_preserves _ _ _ Hinv Hopen) as (st' & -> & Hinv').
      destruct (IH _ _ Hinv') as [Hdone Herr].
      rewrite <- app_assoc in Hdone. by split.
    + rewrite (route_body_blocked _ _ Hopen). simpl. by rewrite app_nil_r.
Qed.

Lemma route_loop_invariant (reads : list AlignedSegment) :
  let out := route_loop can_open header_text basename reads
               {| written_cbs := ∅; files := fs; warnings := [] |} in
  inv (processed can_open basename reads) (fst out)
  ∧ snd out = if forallb (openable can_open basename) reads then None
              else Some OSError.
Proof. exact (route_loop_from reads [] _ router_inv_start). Qed.


Lemma processed_all (reads : list AlignedSegment) :
  forallb (openable can_open basename) reads = true →
  processed can_open basename reads = reads.
Proof.
  induction reads as [|read reads IH]; [done|]. cbn [processed forallb].
  intros [-> Hall]%andb_true_iff. by rewrite (IH Hall).
Qed.

Lemma processed_app (reads1 reads2 : list AlignedSegment) :
  forallb (openable can_open basename) reads1 = true →
  processed can_open basename (reads1 ++ reads2)
  = reads1 ++ processed can_open basename reads2.
Proof.
  induction reads1 as [|read reads1 IH]; [done|]. cbn [forallb].
  intros [Hopen Hall]%andb_true_iff. simpl. by rewrite Hopen, (IH Hall).
Qed.


End Router.




(** Three records of two barcodes and one record with three fields. *)
Example router_run :
  let '(st, err) :=
    split_bam_main fresh_output_dir "data/x.bam" ("@HD" +:+ PyStr.nl)
      [mkAlignedSegment "AAA_U1_001_R1" "l1";
       mkAlignedSegment "CCC_U2_001_R1" "l2";
       mkAlignedSegment "bad_name_R1" "l3";
       mkAlignedSegment "AAA_U3_002_R2" "l4"] ∅ in
  err = None
  ∧ files st !! "split_bam_files_sam/x_AAA.sam"
    = Some ("@HD" +:+ PyStr.nl +:+ "l1" +:+ PyStr.nl +:+ "l4" +:+ PyStr.nl)
  ∧ files st !! "split_bam_files_sam/x_CCC.sam"
    = Some ("@HD" +:+ PyStr.nl +:+ "l2" +:+ PyStr.nl)
  ∧ warnings st = ["[WARN] Failed to parse CB from read: bad_name_R1"].
Proof. vm_compute. repeat split. Qed.



(** ** The tag aggregator *)

(** A name without the separator is its own single field. *)
Lemma split_no_sep (sep : ascii) (s : string) :
  has_char sep s = false → PyStr.split sep s = [s].
Proof.
  induction s as [|c s IH]; simpl; [done|].
  intros [Hc Hs]%orb_false_iff. rewrite Hc. by rewrite (IH Hs).
Qed.

Lemma split_not_nil (sep : ascii) (s : string) : PyStr.split sep s ≠ [].
Proof.
  destruct s as [|c r]; simpl; [done|].
  destruct (Ascii.eqb c sep); [done|]. by destruct (PyStr.split sep r).
Qed.

Lemma length_split (sep : ascii) (s : string) :
  length (PyStr.split sep s) = S (count_char sep s).
Proof.
  induction s as [|c r IH]; simpl; [done|].
  destruct (Ascii.eqb c sep); simpl; [by rewrite IH|].
  destruct (PyStr.split sep r); simpl in *; lia.
Qed.

Lemma count_char_app (c : ascii) (s t : string) :
  count_char c (s +:+ t) = (count_char c s + count_char c t)%nat.
Proof.
  induction s as [|c' s IH]; [done|].
  rewrite string_app_cons. simpl. rewrite IH. by destruct (Ascii.eqb c' c).
Qed.

(** The first field holds no separator, and the name is the first field
    alone or the first field, a separator and the rest. *)
Lemma split_first (sep : ascii) (s f : string) (fs : list string) :
  PyStr.split sep s = f :: fs →
  has_char sep f = false
  ∧ (fs = [] ∧ s = f
     ∨ fs ≠ [] ∧ ∃ rest, s = f +:+ String sep rest).
Proof.
  revert f fs. induction s as [|c r IH]; intros f fs; simpl.
  - intros [= <- <-]. split; [done|]. by left.
  - destruct (Ascii.eqb_spec c sep) as [->|Hne].
    + intros [= <- <-]. split; [done|]. right.
      split; [apply split_not_nil|]. by exists r.
    + destruct (PyStr.split sep r) as [|h t] eqn:Hr.
      { by apply split_not_nil in Hr. }
      intros [= <- <-]. destruct (IH h t eq_refl) as [Hh Hcases].
      split.
      * simpl. rewrite Hh. by destruct (Ascii.eqb_spec c sep).
      * destruct Hcases as [[-> ->]|[Ht (rest & ->)]]; [by left|].
        right. split; [done|]. by exists rest.
Qed.

(** The last field holds no separator, and the name is the last field
    alone or something, a separator and the last field. *)
Lemma split_last (sep : ascii) (s : string) :
  has_char sep s = false ∧ PyStr.split sep s = [s]
  ∨ ∃ pre tag, s = pre +:+ String sep tag ∧ has_char sep tag = false
               ∧ PyStr.last_or_empty (PyStr.split sep s) = tag.
Proof.
  induction s as [|c r IH]; [by left|].
  simpl PyStr.split. destruct (Ascii.eqb_spec c sep) as [->|Hne].
  - right. destruct IH as [[Hr Hsplit]|(pre & tag & -> & Htag & Hlast)].
    + exists EmptyString, r. rewrite Hsplit. by repeat split.
    + exists (String sep pre), tag. split; [done|]. split; [done|].
      unfold PyStr.last_or_empty in *.
      destruct (PyStr.split sep (pre +:+ String sep tag)) eqn:Hs; [|done].
      by apply split_not_nil in Hs.
  - destruct IH as [[Hr Hsplit]|(pre & tag & -> & Htag & Hlast)].
    + left. rewrite Hsplit. split; [|done]. simpl. rewrite Hr.
      by destruct (Ascii.eqb_spec c sep).
    + right. exists (String c pre), tag. split; [done|]. split; [done|].
      pose proof (length_split sep (pre +:+ String sep tag)) as Hlen.
      rewrite count_char_app in Hlen. simpl in Hlen.
      rewrite Ascii.eqb_refl in Hlen.
      unfold PyStr.last_or_empty in *.
      destruct (PyStr.split sep (pre +:+ String sep tag)) as [|h [|h' t]];
        simpl in Hlen; [lia|lia|done].
Qed.

Lemma split_last_app (sep : ascii) (pre tag : string) :
  has_char sep tag = false →
  PyStr.last_or_empty (PyStr.split sep (pre +:+ String sep tag)) = tag.
Proof.
  intros Htag. unfold PyStr.last_or_empty.
  induction pre as [|a pre IH].
  - change (EmptyString +:+ ?x) with x. simpl. rewrite Ascii.eqb_refl.
    by rewrite (split_no_sep _ _ Htag).
  - rewrite string_app_cons. simpl PyStr.split.
    pose proof (length_split sep (pre +:+ String sep tag)) as Hlen.
    rewrite count_char_app in Hlen. simpl in Hlen.
    rewrite Ascii.eqb_refl in Hlen.
    destruct (PyStr.split sep (pre +:+ String sep tag)) as [|h [|h' t]];
      simpl in Hlen; [lia|lia|].
    by destruct (Ascii.eqb a sep).
Qed.

Lemma count_body_get (tag_count : PyDict.t) (read : AlignedSegment)
    (tag : string) :
  PyDict.get (count_body tag_count read) tag
  = if decide (read_tag read = tag)
    then Some (PyDict.get_default tag_count tag 0 + 1)
    else PyDict.get tag_count tag.
Proof.
  unfold count_body, PyDict.get_default.
  destruct (decide (read_tag read = tag)) as [<-|Hne].
  - destruct (PyDict.get tag_count (read_tag read));
      by rewrite pydict_get_set_eq.
  - destruct (PyDict.get tag_count (read_tag read));
      by rewrite pydict_get_set_ne.
Qed.

Lemma count_body_sum (tag_count : PyDict.t) (read : AlignedSegment) :
  py_sum (PyDict.values (count_body tag_count read))
  = py_sum (PyDict.values tag_count) + 1.
Proof.
  unfold count_body.
  destruct (PyDict.get tag_count (read_tag read)) as [n|] eqn:Hget;
    rewrite py_sum_set; unfold PyDict.get_default; rewrite Hget; lia.
Qed.

Lemma count_body_keys (tag_count : PyDict.t) (read : AlignedSegment) :
  NoDup (map fst tag_count) → NoDup (map fst (count_body tag_count read)).
Proof.
  unfold count_body.
  destruct (PyDict.get tag_count (read_tag read)); apply pydict_set_keys.
Qed.

Lemma carrying_snoc (tag : string) (reads : list AlignedSegment)
    (read : AlignedSegment) :
  carrying tag (reads ++ [read])
  = carrying tag reads + (if decide (read_tag read = tag) then 1 else 0).
Proof.
  unfold carrying. rewrite filter_app, length_app.
  destruct (decide (read_tag read = tag)).
  - rewrite filter_cons_True by done. simpl. lia.
  - rewrite filter_cons_False by done. simpl. lia.
Qed.

(** The table built by the loop of [umi_count_bam]: distinct tags, under
    each tag the number of records that carry it (no row for a tag that
    no record carries), and counts that add up to the number of records. *)
Lemma count_loop_invariant (reads : list AlignedSegment) :
  let tag_count := fold_left count_body reads PyDict.empty in
  NoDup (map fst tag_count)
  ∧ (∀ tag, PyDict.get tag_count tag
            = if decide (carrying tag reads = 0) then None
              else Some (carrying tag reads))
  ∧ py_sum (PyDict.values tag_count) = Z.of_nat (length reads).
Proof.
  induction reads as [|read reads IH] using rev_ind.
  - simpl. split; [apply NoDup_nil_2|]. split; [done|reflexivity].
  - simpl in *. rewrite fold_left_app. simpl fold_left.
    destruct IH as (Hnd & Hget & Hsum).
    split; [by apply count_body_keys|]. split.
    + intros tag. rewrite count_body_get, carrying_snoc.
      unfold PyDict.get_default. rewrite (Hget tag).
      assert (0 ≤ carrying tag reads) by (unfold carrying; lia).
      destruct (decide (read_tag read = tag)) as [_|_].
      * rewrite (decide_False (P := carrying tag reads + 1 = 0)) by lia.
        destruct (decide (carrying tag reads = 0)) as [->|_]; f_equal; lia.
      * by rewrite Z.add_0_r.
    + rewrite count_body_sum, Hsum, length_app. simpl. lia.
Qed.

Lemma ends_with_app (suffix pre : string) :
  ends_with suffix (pre +:+ suffix) = true.
Proof.
  induction pre as [|c pre IH].
  - change (EmptyString +:+ ?x) with x.
    destruct suffix; cbn [ends_with]; by rewrite String.eqb_refl.
  - rewrite string_app_cons. cbn [ends_with]. rewrite IH. apply orb_true_r.
Qed.

Lemma ends_with_inv (suffix s : string) :
  ends_with suffix s = true → ∃ pre, s = pre +:+ suffix.
Proof.
  induction s as [|c s IH]; cbn [ends_with].
  - rewrite orb_false_r. intros ->%String.eqb_eq. by exists EmptyString.
  - intros [->%String.eqb_eq|Hs]%orb_true_iff; [by exists EmptyString|].
    destruct (IH Hs) as [pre ->]. by exists (String c pre).
Qed.

(** The tag that the loop computes is the last underscore-separated field
    of the identity, and nothing else is. *)
Lemma is_last_field_read_tag (tag : string) (read : AlignedSegment) :
  is_last_field tag (query_name read) = true ↔ read_tag read = tag.
Proof.
  unfold is_last_field, read_tag. split.
  - intros [Htag%negb_true_iff Hname]%andb_true_iff.
    apply orb_true_iff in Hname as [->%String.eqb_eq|Hend].
    + by rewrite (split_no_sep _ _ Htag).
    + apply ends_with_inv in Hend as [pre ->]. by apply split_last_app.
  - intros <-.
    destruct (split_last "_" (query_name read))
      as [[Hno Hsplit]|(pre & tag & Hname & Htag & Hlast)].
    + rewrite Hsplit.
      change (PyStr.last_or_empty [query_name read]) with (query_name read).
      by rewrite Hno, String.eqb_refl.
    + rewrite Hlast, Htag, Hname, ends_with_app. apply orb_true_r.
Qed.

Lemma records_ending_in_carrying (tag : string) (reads : list AlignedSegment) :
  records_ending_in tag reads = carrying tag reads.
Proof.
  unfold records_ending_in, carrying. do 2 f_equal.
  apply list_filter_iff. intros r. apply is_last_field_read_tag.
Qed.

(** The rows of the table, in the words of the specification. *)
Lemma tag_table_rows (reads : list AlignedSegment) (tag : string) (n : Z) :
  (tag, n) ∈ PyDict.items (fold_left count_body reads PyDict.empty)
  ↔ n = records_ending_in tag reads ∧ 0 < n.
Proof.
  destruct (count_loop_invariant reads) as (Hnd & Hget & _).
  simpl in Hnd, Hget. unfold PyDict.items.
  rewrite (pydict_get_elem_of _ _ _ Hnd), Hget, records_ending_in_carrying.
  assert (0 ≤ carrying tag reads) by (unfold carrying; lia).
  destruct (decide (carrying tag reads = 0)) as [Hz|Hnz].
  - split; [done|]. intros [-> Hpos]. lia.
  - split; [intros [= <-]; lia|]. by intros [-> _].
Qed.

(** C8. The table of [umi_count_bam] has one row per tag that occurs, and
    the row of a tag holds the number of records whose identity has that
    tag as its last underscore-separated field: the identity is the tag,
    or ends in an underscore followed by the tag, and the tag holds no
    underscore. The total is the sum of the [count] column, which is the
    sum over the rows of the number of records with the tag of the row.
    For three records whose identities have the last fields [R1], [R1],
    [R2], as in [x_R1], [y_R1], [z_R2], the table is [(R1, 2), (R2, 1)]
    and the total is 3. *)
Theorem tag_table_counts_records (reads : list AlignedSegment) :
  let '(_, reads_number, df) := umi_count_bam reads in
  NoDup (map fst df)
  ∧ (∀ tag n, (tag, n) ∈ df ↔ n = records_ending_in tag reads ∧ 0 < n)
  ∧ reads_number = py_sum (map snd df)
  ∧ reads_number
    = py_sum (map (fun row => records_ending_in (fst row) reads) df)
  ∧ (∀ a b c : AlignedSegment,
       is_last_field "R1" (query_name a) = true →
       is_last_field "R1" (query_name b) = true →
       is_last_field "R2" (query_name c) = true →
       umi_count_bam [a; b; c] = (2, 3, [("R1", 2); ("R2", 1)]))
  ∧ (∀ x y z la lb lc : string,
       umi_count_bam
         [mkAlignedSegment (x +:+ "_R1") la;
          mkAlignedSegment (y +:+ "_R1") lb;
          mkAlignedSegment (z +:+ "_R2") lc]
       = (2, 3, [("R1", 2); ("R2", 1)])).
Proof.
  assert (Hthree : ∀ a b c : AlignedSegment,
            is_last_field "R1" (query_name a) = true →
            is_last_field "R1" (query_name b) = true →
            is_last_field "R2" (query_name c) = true →
            umi_count_bam [a; b; c] = (2, 3, [("R1", 2); ("R2", 1)])).
  { intros a b c Ha%is_last_field_read_tag Hb%is_last_field_read_tag
      Hc%is_last_field_read_tag.
    unfold umi_count_bam. simpl. unfold count_body.
    rewrite Ha. simpl. rewrite Hb. simpl. rewrite Hc. reflexivity. }
  unfold umi_count_bam.
  destruct (count_loop_invariant reads) as (Hnd & _ & _). simpl in Hnd.
  split; [exact Hnd|].
  split; [intros tag n; apply tag_table_rows|].
  split; [reflexivity|].
  split.
  { f_equal. apply map_ext_in. intros [tag n] Hin%list_elem_of_In.
    by apply tag_table_rows in Hin as [-> _]. }
  split; [exact Hthree|].
  intros x y z la lb lc. apply Hthree; simpl;
    unfold is_last_field; simpl has_char; simpl negb; rewrite andb_true_l;
    change (String "_" "R1") with ("_R1") in *;
    change (String "_" "R2") with ("_R2") in *;
    rewrite ends_with_app; apply orb_true_r.
Qed.

Example tag_table_three_reads :
  umi_count_bam
    [mkAlignedSegment "AAA_U1_001_R1" "l1";
     mkAlignedSegment "AAA_U2_002_R1" "l2";
     mkAlignedSegment "AAA_U3_003_R2" "l3"]
  = (2, 3, [("R1", 2); ("R2", 1)]).
Proof. reflexivity. Qed.

(** C9. The aggregator has no rule on the number of fields. The identity
    of every record has a last underscore-separated field, which is the
    whole identity when it holds no underscore; every pass of the loop
    adds one to the count of that field, leaves the other counts as they
    were, and adds one to the sum of the counts, whatever the identity is;
    and the total that [umi_count_bam] reports is the number of records of
    the container. *)
Theorem tag_aggregator_counts_every_record (reads : list AlignedSegment) :
  (∀ (tag_count : PyDict.t) (read : AlignedSegment),
     has_char "_" (query_name read) = false →
     is_last_field (query_name read) (query_name read) = true
     ∧ PyDict.get (count_body tag_count read) (query_name read)
       = Some (PyDict.get_default tag_count (query_name read) 0 + 1))
  ∧ (∀ (tag_count : PyDict.t) (read : AlignedSegment),
       ∃ tag,
         is_last_field tag (query_name read) = true
         ∧ PyDict.get (count_body tag_count read) tag
           = Some (PyDict.get_default tag_count tag 0 + 1)
         ∧ (∀ other, other ≠ tag →
              PyDict.get (count_body tag_count read) other
              = PyDict.get tag_count other)
         ∧ py_sum (PyDict.values (count_body tag_count read))
           = py_sum (PyDict.values tag_count) + 1)
  ∧ (let '(_, reads_number, _) := umi_count_bam reads in
     reads_number = Z.of_nat (length reads)).
Proof.
  split.
  { intros tag_count read Hno.
    assert (Htag : read_tag read = query_name read).
    { unfold read_tag. by rewrite (split_no_sep _ _ Hno). }
    split; [by apply is_last_field_read_tag|].
    rewrite count_body_get. by rewrite decide_True. }
  split.
  { intros tag_count read. exists (read_tag read).
    split; [by apply is_last_field_read_tag|].
    split; [rewrite count_body_get; by rewrite decide_True|].
    split; [|apply count_body_sum].
    intros other Hne. rewrite count_body_get. by rewrite decide_False. }
  unfold umi_count_bam, PyDict.items.
  by destruct (count_loop_invariant reads) as (_ & _ & Hsum).
Qed.

Example tag_of_plain_name :
  umi_count_bam [mkAlignedSegment "read7" "l1"; mkAlignedSegment EmptyString "l2"]
  = (2, 2, [("read7", 1); (EmptyString, 1)]).
Proof. reflexivity. Qed.

(** * Further properties *)

(** ** The rows of the barcode summary *)









(** ** The barcode count table *)

Lemma kept_with_snoc (cb_list : gset string) (cb_len umi_len : Z)
    (cb : string) (records : list SeqRecord) (r : SeqRecord) :
  kept_with cb_list cb_len umi_len cb (records ++ [r])
  = kept_with cb_list cb_len umi_len cb records
    + (if decide (¬ rejected cb_list cb_len umi_len r ∧ record_cb cb_len r = cb)
       then 1 else 0).
Proof.
  unfold kept_with. rewrite filter_app, length_app.
  destruct (decide (¬ rejected cb_list cb_len umi_len r
                    ∧ record_cb cb_len r = cb)).
  - rewrite filter_cons_True by done. simpl. lia.
  - rewrite filter_cons_False by done. simpl. lia.
Qed.

Lemma process_read1_snoc (cb_list : gset string) (cb_len umi_len : Z)
    (records : list SeqRecord) (r : SeqRecord) (st : R1State) :
  process_read1 records cb_list cb_len umi_len = Ok st →
  process_read1 (records ++ [r]) cb_list cb_len umi_len
  = process_read1_body cb_list cb_len umi_len st r.
Proof.
  unfold process_read1. intros Hrun. rewrite for_each_app, Hrun. simpl.
  by destruct (process_read1_body cb_list cb_len umi_len st r).
Qed.

(** The count table after any number of records: distinct barcodes, and
    under each barcode the number of accepted records that carry it. *)
Lemma process_read1_count_invariant (cb_list : gset string)
    (cb_len umi_len : Z) (records : list SeqRecord) :
  ∃ st, process_read1 records cb_list cb_len umi_len = Ok st
    ∧ NoDup (map fst (cb_count st))
    ∧ ∀ cb, PyDict.get (cb_count st) cb
            = if decide (kept_with cb_list cb_len umi_len cb records = 0)
              then None
              else Some (kept_with cb_list cb_len umi_len cb records).
Proof.
  induction records as [|r records IH] using rev_ind.
  - exists r1_init. split; [done|]. split; [apply NoDup_nil_2|done].
  - destruct IH as (st & Hrun & Hnd & Hget).
    rewrite (process_read1_snoc _ _ _ _ _ _ Hrun).
    destruct (decide (rejected cb_list cb_len umi_len r)) as [Hr|Hr].
    + rewrite (process_read1_body_rejected _ _ _ _ _ Hr).
      eexists. split; [reflexivity|]. simpl. split; [exact Hnd|].
      intros cb. rewrite kept_with_snoc.
      rewrite (decide_False (P := _ ∧ _)) by tauto.
      rewrite Z.add_0_r. apply Hget.
    + rewrite (process_read1_body_accepted _ _ _ _ _ Hr).
      eexists. split; [reflexivity|]. simpl.
      split; [by apply pydict_set_keys|].
      intros cb. rewrite kept_with_snoc.
      assert (0 ≤ kept_with cb_list cb_len umi_len cb records)
        by (unfold kept_with; lia).
      destruct (decide (record_cb cb_len r = cb)) as [<-|Hne].
      * rewrite pydict_get_set_eq.
        rewrite (decide_True (P := _ ∧ _)) by done.
        rewrite (decide_False (P := _ + 1 = 0)) by lia.
        unfold PyDict.get_default. rewrite Hget.
        destruct (decide (kept_with _ _ _ _ records = 0)) as [->|_];
          f_equal; lia.
      * rewrite pydict_get_set_ne by done.
        rewrite (decide_False (P := _ ∧ _)) by (by intros [_ ?]).
        rewrite Z.add_0_r. apply Hget.
Qed.

(** X2. After [process_read1] the count table has one row per barcode that
    an accepted record carries, the row holds the number of accepted
    records with that barcode, and every barcode of the table belongs to
    the whitelist. *)
Theorem barcode_count_table (cb_list : gset string) (cb_len umi_len : Z)
    (records : list SeqRecord) :
  ∃ st, process_read1 records cb_list cb_len umi_len = Ok st
    ∧ NoDup (map fst (cb_count st))
    ∧ (∀ cb n, (cb, n) ∈ cb_count st
               ↔ n = kept_with cb_list cb_len umi_len cb records ∧ 0 < n)
    ∧ (∀ cb n, (cb, n) ∈ cb_count st → cb ∈ cb_list).
Proof.
  destruct (process_read1_count_invariant cb_list cb_len umi_len records)
    as (st & Hrun & Hnd & Hget).
  exists st. split; [exact Hrun|]. split; [exact Hnd|].
  assert (Hrows : ∀ cb n, (cb, n) ∈ cb_count st
            ↔ n = kept_with cb_list cb_len umi_len cb records ∧ 0 < n).
  { intros cb n. rewrite (pydict_get_elem_of _ _ _ Hnd), Hget.
    assert (0 ≤ kept_with cb_list cb_len umi_len cb records)
      by (unfold kept_with; lia).
    destruct (decide (kept_with cb_list cb_len umi_len cb records = 0)).
    - split; [done|]. intros [-> Hpos]. lia.
    - split; [intros [= <-]; lia|]. by intros [-> _]. }
  split; [exact Hrows|].
  intros cb n [-> Hpos]%Hrows. unfold kept_with in Hpos.
  destruct (filter _ records) as [|r l] eqn:Hf; [simpl in Hpos; lia|].
  assert (Hin : r ∈ filter
            (fun r => ¬ rejected cb_list cb_len umi_len r
                      ∧ record_cb cb_len r = cb) records).
  { rewrite Hf. apply list_elem_of_here. }
  apply list_elem_of_filter in Hin as [[Hacc <-] _].
  apply dec_stable. intros Hnot. apply Hacc. by right.
Qed.

(** ** The size of the index *)

Lemma process_read1_loop_index_dom (cb_list : gset string)
    (cb_len umi_len : Z) (records : list SeqRecord) (st st' : R1State) :
  for_each (process_read1_body cb_list cb_len umi_len) records st = Ok st' →
  (∀ k, k ∈ dom (cb_umi_dict st')
        ↔ k ∈ dom (cb_umi_dict st)
          ∨ ∃ r, r ∈ records ∧ ¬ rejected cb_list cb_len umi_len r
                 ∧ rec_id r = k)
  ∧ (size (cb_umi_dict st') + length (r1_out st)
     ≤ size (cb_umi_dict st) + length (r1_out st'))%nat.
Proof.
  revert st. induction records as [|r records IH]; intros st Hrun.
  - simpl in Hrun. injection Hrun as <-. split; [|lia].
    intros k. split; [by left|]. intros [Hk|(r & Hin & _)]; [done|].
    by apply elem_of_nil in Hin.
  - simpl in Hrun.
    destruct (decide (rejected cb_list cb_len umi_len r)) as [Hr|Hr].
    + rewrite (process_read1_body_rejected _ _ _ _ _ Hr) in Hrun.
      simpl in Hrun. destruct (IH _ Hrun) as [Hdom Hsize].
      simpl in Hdom, Hsize. split; [|exact Hsize].
      intros k. rewrite Hdom. split.
      * intros [Hk|(r' & Hin & Hacc & Hid)]; [by left|].
        right. exists r'. split; [by apply list_elem_of_further|done].
      * intros [Hk|(r' & Hin & Hacc & Hid)]; [by left|].
        apply elem_of_cons in Hin as [->|Hin]; [done|].
        right. by exists r'.
    + rewrite (process_read1_body_accepted _ _ _ _ _ Hr) in Hrun.
      simpl in Hrun. destruct (IH _ Hrun) as [Hdom Hsize].
      simpl in Hdom, Hsize. split.
      * intros k. rewrite Hdom, dom_insert_L, elem_of_union, elem_of_singleton.
        split.
        -- intros [[->|Hk]|(r' & Hin & Hacc & Hid)].
           ++ right. exists r. split; [apply list_elem_of_here|done].
           ++ by left.
           ++ right. exists r'. split; [by apply list_elem_of_further|done].
        -- intros [Hk|(r' & Hin & Hacc & Hid)]; [by left; right|].
           apply elem_of_cons in Hin as [->|Hin]; [by left; left|].
           right. by exists r'.
      * rewrite length_app in Hsize. simpl in Hsize.
        pose proof (map_size_insert (rec_id r)
                      (mate1_header cb_len umi_len r) (cb_umi_dict st)) as Hins.
        destruct (cb_umi_dict st !! rec_id r); unfold id in Hins; lia.
Qed.

(** X3. The keys of the index built by [process_read1] are the identities of
    the accepted records, and the index has at most as many entries as
    records were written to the mate-1 output. *)
Theorem index_keys_are_accepted_identities (cb_list : gset string)
    (cb_len umi_len : Z) (records : list SeqRecord) :
  ∃ st, process_read1 records cb_list cb_len umi_len = Ok st
    ∧ (∀ k, k ∈ dom (cb_umi_dict st)
            ↔ ∃ r, r ∈ records ∧ ¬ rejected cb_list cb_len umi_len r
                   ∧ rec_id r = k)
    ∧ (size (cb_umi_dict st) ≤ length (r1_out st))%nat.
Proof.
  destruct (process_read1_loop cb_list cb_len umi_len records r1_init)
    as (st & Hrun & _).
  exists st. split; [exact Hrun|].
  destruct (process_read1_loop_index_dom _ _ _ _ _ _ Hrun) as [Hdom Hsize].
  simpl in Hdom, Hsize. split.
  - intros k. rewrite Hdom, dom_empty_L. split; [|by right].
    intros [Hk|Hk]; [by apply elem_of_empty in Hk|done].
  - rewrite map_size_empty in Hsize. lia.
Qed.

(** ** The figures of a run *)






(** ** Mates stay paired *)

Lemma NoDup_map_inj {A B : Type} (f : A → B) (l : list A) (x y : A) :
  NoDup (map f l) → x ∈ l → y ∈ l → f x = f y → x = y.
Proof.
  induction l as [|z l IH]; simpl; intros Hnd Hx Hy Hf.
  - by apply elem_of_nil in Hx.
  - apply NoDup_cons in Hnd as [Hz Hnd].
    apply elem_of_cons in Hx as [->|Hx]; apply elem_of_cons in Hy as [->|Hy].
    + done.
    + exfalso. apply Hz. rewrite Hf. apply list_elem_of_fmap. by exists y.
    + exfalso. apply Hz. rewrite <- Hf. apply list_elem_of_fmap. by exists x.
    + by apply IH.
Qed.

(** With distinct identities the index holds, for every mate-1 record,
    its own header when it was accepted and nothing when it was not. *)
Lemma index_of_distinct_identities (cb_list : gset string)
    (cb_len umi_len : Z) (in1 : list SeqRecord) (r1 : R1State)
    (m : SeqRecord) :
  NoDup (map rec_id in1) →
  process_read1 in1 cb_list cb_len umi_len = Ok r1 →
  m ∈ in1 →
  cb_umi_dict r1 !! rec_id m
  = if decide (rejected cb_list cb_len umi_len m) then None
    else Some (mate1_header cb_len umi_len m).
Proof.
  intros Hnd Hrun Hm.
  assert (Hsound : ∀ h, cb_umi_dict r1 !! rec_id m = Some h →
            ¬ rejected cb_list cb_len umi_len m
            ∧ h = mate1_header cb_len umi_len m).
  { intros h Hh.
    destruct (process_read1_loop_index_sound _ _ _ _ _ _ _ _ Hrun Hh)
      as [Hold|(r & Hin & Hacc & Hid & ->)].
    { simpl in Hold. by rewrite lookup_empty in Hold. }
    by rewrite (NoDup_map_inj rec_id in1 r m Hnd Hin Hm Hid) in *. }
  destruct (decide (rejected cb_list cb_len umi_len m)) as [Hr|Hr].
  - destruct (cb_umi_dict r1 !! rec_id m) as [h|] eqn:Hh; [|done].
    by destruct (Hsound h eq_refl).
  - destruct (process_read1_loop_index_dom _ _ _ _ _ _ Hrun) as [Hdom _].
    assert (Hin : rec_id m ∈ dom (cb_umi_dict r1)).
    { apply Hdom. right. by exists m. }
    apply elem_of_dom in Hin as [h Hh]. rewrite Hh.
    by destruct (Hsound h Hh) as [_ ->].
Qed.

(** [process_read2] on a stream that lists the mates of [l1] in the same
    order, for an index that answers as above. *)
Lemma process_read2_loop_paired (cb_list : gset string) (cb_len umi_len : Z)
    (index : gmap string string) (l1 l2 : list SeqRecord) (st : R2State) :
  map rec_id l1 = map rec_id l2 →
  (∀ m, m ∈ l1 →
     index !! rec_id m
     = if decide (rejected cb_list cb_len umi_len m) then None
       else Some (mate1_header cb_len umi_len m)) →
  for_each (process_read2_body index) l2 st
  = Ok {| r2_out :=
            r2_out st ++
              map (fun p => mate2_entry (mate1_header cb_len umi_len p.1) p.2)
                (filter (fun p => ¬ rejected cb_list cb_len umi_len p.1)
                   (zip l1 l2));
          missing_r2 :=
            missing_r2 st
            + Z.of_nat (length (filter (rejected cb_list cb_len umi_len) l1)) |}.
Proof.
  revert l2 st. induction l1 as [|m1 l1 IH]; intros [|m2 l2] st Hids Hidx;
    simpl in Hids; try done.
  - simpl. rewrite app_nil_r, Z.add_0_r. by destruct st.
  - injection Hids as Hid Hids. simpl for_each.
    pose proof (Hidx m1 (list_elem_of_here _ _)) as Hm1. rewrite Hid in Hm1.
    assert (Hidx' : ∀ m, m ∈ l1 →
              index !! rec_id m
              = if decide (rejected cb_list cb_len umi_len m) then None
                else Some (mate1_header cb_len umi_len m)).
    { intros m Hm. apply Hidx. by apply list_elem_of_further. }
    simpl zip. rewrite !filter_cons. simpl fst.
    destruct (decide (rejected cb_list cb_len umi_len m1)) as [Hr|Hr].
    + rewrite (process_read2_body_missing _ _ _ Hm1). simpl bind.
      rewrite (IH l2 _ Hids Hidx'). simpl.
      rewrite decide_False by tauto. do 2 f_equal. lia.
    + rewrite (process_read2_body_matched _ _ _ _ Hm1). simpl bind.
      rewrite (IH l2 _ Hids Hidx'). simpl.
      rewrite decide_True by done. simpl. rewrite <- app_assoc. done.
Qed.

(** X5. When the two streams list the same identities in the same order and
    no identity occurs twice, the two outputs are paired: the k-th entry
    of the mate-2 output is the mate of the k-th entry of the mate-1
    output, under the header of that entry with the mate tag changed, and
    as many mate-2 records are dropped as mate-1 records are rejected. *)
Theorem mates_stay_paired (cb_list : gset string) (cb_len umi_len : Z)
    (in1 in2 : list SeqRecord) :
  map rec_id in1 = map rec_id in2 →
  NoDup (map rec_id in1) →
  ∃ r1 r2,
    process_read1 in1 cb_list cb_len umi_len = Ok r1
    ∧ process_read2 in2 (cb_umi_dict r1) = Ok r2
    ∧ r1_out r1 =
        map (fun p => mate1_entry cb_len umi_len p.1)
          (filter (fun p => ¬ rejected cb_list cb_len umi_len p.1)
             (zip in1 in2))
    ∧ r2_out r2 =
        map (fun p => mate2_entry (mate1_header cb_len umi_len p.1) p.2)
          (filter (fun p => ¬ rejected cb_list cb_len umi_len p.1)
             (zip in1 in2))
    ∧ missing_r2 r2 = invalid_cb_reads r1.
Proof.
  intros Hids Hnd.
  destruct (process_read1_loop cb_list cb_len umi_len in1 r1_init)
    as (r1 & Hrun1 & Hout & _ & Hinv).
  exists r1. eexists. split; [exact Hrun1|]. split.
  { unfold process_read2.
    apply (process_read2_loop_paired cb_list cb_len umi_len _ in1 in2);
      [exact Hids|].
    intros m Hm. by apply (index_of_distinct_identities _ _ _ in1). }
  simpl. simpl in Hout, Hinv. split; [|split; [done|lia]].
  rewrite Hout. clear -Hids.
  revert in2 Hids. induction in1 as [|m1 l1 IH]; intros [|m2 l2] Hids;
    simpl in Hids; try done.
  injection Hids as _ Hids. simpl zip. rewrite !filter_cons. simpl fst.
  destruct (decide (¬ rejected cb_list cb_len umi_len m1)); simpl;
    by rewrite (IH l2 Hids).
Qed.

Lemma mates_stay_paired_witness :
  map rec_id [mkSeqRecord "a" "CCCCGGxxxx" "IIIIIIIIII";
              mkSeqRecord "b" "AAAATTxxxx" "IIIIIIIIII"]
  = map rec_id [mkSeqRecord "a" "GG" "JJ"; mkSeqRecord "b" "TT" "KK"]
  ∧ ∃ r1 r2,
      process_read1 [mkSeqRecord "a" "CCCCGGxxxx" "IIIIIIIIII";
                     mkSeqRecord "b" "AAAATTxxxx" "IIIIIIIIII"]
        {["AAAA"]} 4 2 = Ok r1
      ∧ process_read2 [mkSeqRecord "a" "GG" "JJ"; mkSeqRecord "b" "TT" "KK"]
          (cb_umi_dict r1) = Ok r2
      ∧ missing_r2 r2 = invalid_cb_reads r1.
Proof.
  split; [reflexivity|].
  destruct (mates_stay_paired {["AAAA"]} 4 2
              [mkSeqRecord "a" "CCCCGGxxxx" "IIIIIIIIII";
               mkSeqRecord "b" "AAAATTxxxx" "IIIIIIIIII"]
              [mkSeqRecord "a" "GG" "JJ"; mkSeqRecord "b" "TT" "KK"])
    as (r1 & r2 & Hrun1 & Hrun2 & _ & _ & Hmiss).
  - reflexivity.
  - simpl. apply NoDup_cons. split.
    + intros Hin. apply list_elem_of_singleton in Hin. discriminate.
    + apply NoDup_singleton.
  - exists r1, r2. by repeat split.
Defined.

(** ** The whitelist loader *)

Lemma lstrip_head (s : string) (c : ascii) (r : string) :
  lstrip s = String c r → is_space c = false.
Proof.
  induction s as [|c' s IH]; simpl; [done|].
  destruct (is_space c') eqn:Hc'; [exact IH|]. by intros [= <- _].
Qed.

Lemma rstrip_head (c : ascii) (r : string) :
  is_space c = false → ∃ r', rstrip (String c r) = String c r'.
Proof. intros Hc. simpl. rewrite Hc. destruct (rstrip r); eauto. Qed.

Lemma rstrip_idem (s : string) : rstrip (rstrip s) = rstrip s.
Proof.
  induction s as [|c s IH]; simpl; [done|].
  destruct (rstrip s) as [|c' r'] eqn:Hr.
  - destruct (is_space c) eqn:Hc; simpl; [done|]. by rewrite Hc.
  - simpl in IH. simpl.
    destruct (rstrip r') as [|c2 r2] eqn:Hr2.
    + destruct (is_space c'); [done|]. by injection IH as <-.
    + by rewrite IH.
Qed.

Lemma strip_idem (s : string) : strip (strip s) = strip s.
Proof.
  unfold strip. destruct (lstrip s) as [|c r] eqn:Hl; [done|].
  pose proof (lstrip_head _ _ _ Hl) as Hc.
  destruct (rstrip_head c r Hc) as [r' Hr]. rewrite Hr.
  simpl lstrip. rewrite Hc. rewrite <- Hr. apply rstrip_idem.
Qed.

Lemma read_cell_barcodes_loop (lines : list string) (acc : gset string)
    (bc : string) :
  bc ∈ fold_left read_cell_barcodes_body lines acc
  ↔ bc ∈ acc ∨ (bc ≠ EmptyString ∧ ∃ l, l ∈ lines ∧ strip l = bc).
Proof.
  revert acc. induction lines as [|line lines IH]; intros acc; simpl.
  - split; [by left|]. intros [Hin|(_ & l & Hl & _)]; [done|].
    by apply elem_of_nil in Hl.
  - rewrite IH. unfold read_cell_barcodes_body.
    destruct (String.eqb_spec (strip line) EmptyString) as [Hblank|Hline].
    + split.
      * intros [Hin|(Hne & l & Hl & Hs)]; [by left|].
        right. split; [done|]. exists l.
        split; [by apply list_elem_of_further|done].
      * intros [Hin|(Hne & l & Hl & Hs)]; [by left|].
        apply elem_of_cons in Hl as [->|Hl]; [congruence|].
        right. split; [done|]. by exists l.
    + rewrite elem_of_union, elem_of_singleton. split.
      * intros [[->|Hin]|(Hne & l & Hl & Hs)].
        -- right. split; [done|]. exists line.
           split; [apply list_elem_of_here|done].
        -- by left.
        -- right. split; [done|]. exists l.
           split; [by apply list_elem_of_further|done].
      * intros [Hin|(Hne & l & Hl & Hs)]; [by left; right|].
        apply elem_of_cons in Hl as [->|Hl]; [by left; left|].
        right. split; [done|]. by exists l.
Qed.

(** X6. [read_cell_barcodes] raises [ValueError] exactly when every line is
    blank. Otherwise it returns the lines with the white space at both
    ends removed, blank lines left out: a set that is not empty, whose
    members are not empty and neither begin nor end with white space. *)
Theorem whitelist_is_stripped_lines (lines : list string) :
  match read_cell_barcodes lines with
  | Raise e =>
      e = ValueError ∧ ∀ l, l ∈ lines → strip l = EmptyString
  | Ok cb_set =>
      cb_set ≠ ∅
      ∧ (∀ bc, bc ∈ cb_set
               ↔ bc ≠ EmptyString ∧ ∃ l, l ∈ lines ∧ strip l = bc)
      ∧ (∀ bc, bc ∈ cb_set → strip bc = bc)
  end.
Proof.
  unfold read_cell_barcodes.
  assert (Hmem : ∀ bc, bc ∈ fold_left read_cell_barcodes_body lines ∅
            ↔ bc ≠ EmptyString ∧ ∃ l, l ∈ lines ∧ strip l = bc).
  { intros bc. rewrite read_cell_barcodes_loop. split; [|by right].
    intros [Hin|H]; [by apply elem_of_empty in Hin|done]. }
  destruct (decide (fold_left read_cell_barcodes_body lines ∅ = ∅))
    as [Hempty|Hne].
  - split; [done|]. intros l Hl.
    destruct (String.eqb_spec (strip l) EmptyString) as [|Hs]; [done|].
    exfalso. apply (not_elem_of_empty (C := gset string) (strip l)).
    rewrite <- Hempty. apply Hmem. split; [done|]. by exists l.
  - split; [exact Hne|]. split; [exact Hmem|].
    intros bc (_ & l & _ & <-)%Hmem. apply strip_idem.
Qed.

Example whitelist_lines :
  read_cell_barcodes
    [String.append "AAAA" PyStr.nl; PyStr.nl;
     String.append "  CCCC " PyStr.nl; "AAAA"]
  = Ok ({["AAAA"; "CCCC"]} : gset string).
Proof.
  vm_compute. reflexivity.
Qed.


(** ** Fields of a read name *)

(** X8. [extract_cb_from_read_name] finds a barcode exactly in the names
    with at least three underscores, and the barcode is what stands
    before the first underscore of the name. *)
Theorem barcode_is_name_before_first_underscore (read_name : string) :
  ((count_char "_" read_name < 3)%nat →
   extract_cb_from_read_name read_name = None)
  ∧ ((3 ≤ count_char "_" read_name)%nat →
     ∃ cb rest, extract_cb_from_read_name read_name = Some cb
                ∧ read_name = cb +:+ String "_" rest
                ∧ has_char "_" cb = false).
Proof.
  pose proof (length_split "_" read_name) as Hlen.
  destruct (extract_cb_spec read_name) as [[Hlt Hnone]|[Hge Hsome]].
  - split; [done|]. lia.
  - split; [lia|]. intros _.
    destruct (PyStr.split "_" read_name) as [|cb fs] eqn:Hsplit;
      [simpl in Hge; lia|].
    destruct (split_first _ _ _ _ Hsplit) as [Hcb [[-> _]|[_ (rest & Hname)]]].
    { simpl in Hge. lia. }
    exists cb, rest. by rewrite Hsome.
Qed.

(** X9. The tag that [umi_count_bam] counts a record under holds no
    underscore, and it is the whole name when the name has none, and
    otherwise what stands after the last underscore of the name. *)
Theorem tag_is_name_after_last_underscore (read : AlignedSegment) :
  has_char "_" (read_tag read) = false
  ∧ (has_char "_" (query_name read) = false
     ∧ read_tag read = query_name read
     ∨ ∃ pre, query_name read = pre +:+ String "_" (read_tag read)).
Proof.
  unfold read_tag.
  destruct (split_last "_" (query_name read))
    as [[Hno Hsplit]|(pre & tag & Hname & Htag & Hlast)].
  - rewrite Hsplit. simpl. split; [done|]. by left.
  - rewrite Hlast. split; [done|]. right. by exists pre.
Qed.

(** ** The partitions of a routing run *)

Lemma has_char_replace_from_delete (c : ascii) (old : string) (skip : nat)
    (s : string) :
  has_char c s = false →
  has_char c (PyStr.replace_from old EmptyString skip s) = false.
Proof.
  revert skip. induction s as [|c' s IH]; intros skip Hs; [done|].
  simpl in Hs. apply orb_false_iff in Hs as [Hc Hs].
  cbn [PyStr.replace_from]. destruct skip as [|k]; [|by apply IH].
  destruct (String.prefix old (String c' s)).
  - change (EmptyString +:+ ?x) with x. by apply IH.
  - simpl. rewrite Hc. by apply IH.
Qed.

(** The base name of the container holds no slash. *)
Lemma bam_basename_no_slash (bam_file_path : string) :
  has_char "/" (bam_basename bam_file_path) = false.
Proof.
  unfold bam_basename, PyStr.replace. apply has_char_replace_from_delete.
  unfold os_path_basename.
  destruct (split_last "/" bam_file_path)
    as [[Hno Hsplit]|(pre & tag & _ & Htag & Hlast)].
  - by rewrite Hsplit.
  - by rewrite Hlast.
Qed.

(** X10. The partition of a barcode is the file
    [split_bam_files_sam/<basename>_<CB>.sam], whatever the path of the
    container is, and two barcodes never share a partition. *)
Theorem partition_paths (bam_file_path cb : string) :
  out_path (bam_basename bam_file_path) cb
  = "split_bam_files_sam/" +:+ bam_basename bam_file_path +:+ "_" +:+ cb
      +:+ ".sam"
  ∧ ∀ cb', out_path (bam_basename bam_file_path) cb
           = out_path (bam_basename bam_file_path) cb' → cb = cb'.
Proof.
  split; [|intros cb'; apply out_path_inj].
  unfold out_path. rewrite os_path_join_output_dir.
  pose proof (bam_basename_no_slash bam_file_path) as Hno.
  destruct (bam_basename bam_file_path) as [|c b]; [reflexivity|].
  simpl in Hno. apply orb_false_iff in Hno as [Hc _].
  apply Ascii.eqb_neq in Hc.
  rewrite string_app_cons, prefix_head_ne by congruence. reflexivity.
Qed.







(** X12. Partitions only grow: once a barcode has occurred in a run that
    has not raised, the records that follow leave what its partition
    holds in place and append the lines of the later records of that
    barcode, up to the first record whose partition cannot be opened;
    these are all later records when the longer run does not raise. *)
Theorem partitions_only_grow
    (can_open : string → bool) (bam_file_path header_text : string)
    (reads1 reads2 : list AlignedSegment) (fs : gmap string string)
    (cb : string) :
  routed_to cb reads1 ≠ [] →
  snd (split_bam_main can_open bam_file_path header_text reads1 fs) = None →
  ∃ content,
    files (fst (split_bam_main can_open bam_file_path header_text reads1 fs))
      !! out_path (bam_basename bam_file_path) cb = Some content
    ∧ files (fst (split_bam_main can_open bam_file_path header_text
                    (reads1 ++ reads2) fs))
        !! out_path (bam_basename bam_file_path) cb
      = Some (content +:+
              sam_lines
                (routed_to cb
                   (processed can_open (bam_basename bam_file_path) reads2)))
    ∧ (snd (split_bam_main can_open bam_file_path header_text
              (reads1 ++ reads2) fs) = None →
       processed can_open (bam_basename bam_file_path) reads2 = reads2).
Proof.
  unfold split_bam_main. intros Hcb Hdone.
  destruct (route_loop_invariant can_open header_text
              (bam_basename bam_file_path) fs reads1) as [Hinv1 Herr1].
  destruct (route_loop_invariant can_open header_text
              (bam_basename bam_file_path) fs (reads1 ++ reads2))
    as [Hinv2 Herr2].
  simpl in Hinv1, Herr1, Hinv2, Herr2.
  assert (Hall1 : forallb (openable can_open (bam_basename bam_file_path))
                    reads1 = true).
  { rewrite Hdone in Herr1. by destruct (forallb _ reads1). }
  rewrite (processed_all _ _ _ Hall1) in Hinv1.
  rewrite (processed_app _ _ _ _ Hall1) in Hinv2.
  destruct Hinv1 as (_ & Hfile1 & _). destruct Hinv2 as (_ & Hfile2 & _).
  eexists. split; [by apply Hfile1|]. split.
  - rewrite Hfile2.
    + unfold routed_to. rewrite filter_app. fold (routed_to cb reads1).
      by rewrite sam_lines_app, string_app_assoc.
    + unfold routed_to in *. rewrite filter_app.
      by destruct (filter _ reads1).
  - intros Hdone2. rewrite Hdone2 in Herr2.
    rewrite forallb_app, Hall1 in Herr2. simpl in Herr2.
    apply processed_all. by destruct (forallb _ reads2).
Qed.

(** A record of [AAA], then a record whose barcode holds a slash and a
    second record of [AAA], in a fresh output directory: the run stops at
    the slash, and the partition of [AAA] holds what it held. *)
Lemma partitions_only_grow_witness :
  (routed_to "AAA" [mkAlignedSegment "AAA_U1_001_R1" "l1"] ≠ []
   ∧ snd (split_bam_main fresh_output_dir "x.bam" "@HD"
            [mkAlignedSegment "AAA_U1_001_R1" "l1"] ∅) = None)
  ∧ ∃ content,
      files (fst (split_bam_main fresh_output_dir "x.bam" "@HD"
                    [mkAlignedSegment "AAA_U1_001_R1" "l1"] ∅))
        !! out_path (bam_basename "x.bam") "AAA" = Some content
      ∧ files (fst (split_bam_main fresh_output_dir "x.bam" "@HD"
                      ([mkAlignedSegment "AAA_U1_001_R1" "l1"]
                         ++ [mkAlignedSegment "p/q_U1_001_R1" "l2";
                             mkAlignedSegment "AAA_U2_002_R2" "l3"]) ∅))
          !! out_path (bam_basename "x.bam") "AAA"
        = Some (content +:+ EmptyString).
Proof.
  assert (Hne : routed_to "AAA" [mkAlignedSegment "AAA_U1_001_R1" "l1"] ≠ []).
  { unfold routed_to. by rewrite filter_cons_True. }
  assert (Hdone : snd (split_bam_main fresh_output_dir "x.bam" "@HD"
                         [mkAlignedSegment "AAA_U1_001_R1" "l1"] ∅) = None).
  { vm_compute. reflexivity. }
  split; [by split|].
  destruct (partitions_only_grow fresh_output_dir "x.bam" "@HD"
              [mkAlignedSegment "AAA_U1_001_R1" "l1"]
              [mkAlignedSegment "p/q_U1_001_R1" "l2";
               mkAlignedSegment "AAA_U2_002_R2" "l3"] ∅ "AAA" Hne Hdone)
    as (content & Hfile1 & Hfile2 & _).
  exists content. split; [exact Hfile1|]. exact Hfile2.
Defined.

(** X13. Routing the same container again over the files of a first run gives
    the same files, and ends as the first run ended: the first record of
    every barcode rewrites its partition from the start, and a run that
    a failing [open] stopped stops at the same record again. *)
Theorem rerun_gives_same_files
    (can_open : string → bool) (bam_file_path header_text : string)
    (reads : list AlignedSegment) (fs : gmap string string) :
  files (fst (split_bam_main can_open bam_file_path header_text reads
                (files (fst (split_bam_main can_open bam_file_path
                               header_text reads fs)))))
  = files (fst (split_bam_main can_open bam_file_path header_text reads fs))
  ∧ snd (split_bam_main can_open bam_file_path header_text reads
           (files (fst (split_bam_main can_open bam_file_path
                          header_text reads fs))))
    = snd (split_bam_main can_open bam_file_path header_text reads fs).
Proof.
  unfold split_bam_main.
  set (b := bam_basename bam_file_path).
  destruct (route_loop_invariant can_open header_text b fs reads)
    as [(Hset & Hfile1 & _) Herr1].
  set (st1 := fst (route_loop can_open header_text b reads _)) in *.
  destruct (route_loop_invariant can_open header_text b (files st1) reads)
    as [(_ & Hfile2 & Hframe2 & _) Herr2].
  simpl in Herr1, Herr2. split; [|by rewrite Herr1, Herr2].
  apply map_eq. intros p.
  destruct (decide (Exists (fun cb => p = out_path b cb)
                      (elements (written_cbs st1)))) as [Hex|Hnex].
  - apply Exists_exists in Hex as (cb & Hin & ->).
    rewrite elem_of_elements, Hset in Hin.
    by rewrite (Hfile2 _ Hin), (Hfile1 _ Hin).
  - apply Hframe2.
    intros cb Hcb ->. apply Hnex. apply Exists_exists. exists cb.
    split; [|done]. by rewrite elem_of_elements, Hset.
Qed.

(** ** More on the tag table *)

Lemma carrying_pos_iff (tag : string) (reads : list AlignedSegment) :
  0 < carrying tag reads ↔ tag ∈ map read_tag reads.
Proof.
  unfold carrying. rewrite list_elem_of_fmap. split.
  - intros Hpos. destruct (filter _ reads) as [|r l] eqn:Hf;
      [simpl in Hpos; lia|].
    assert (Hin : r ∈ filter (fun r => read_tag r = tag) reads).
    { rewrite Hf. apply list_elem_of_here. }
    apply list_elem_of_filter in Hin as [Htag Hin]. by exists r.
  - intros (r & -> & Hin).
    assert (Hin' : r ∈ filter (fun r' => read_tag r' = read_tag r) reads).
    { by apply list_elem_of_filter. }
    destruct (filter _ reads); [by apply elem_of_nil in Hin'|simpl; lia].
Qed.

(** The tags of the table are the tags of the records. *)
Lemma tag_table_keys (reads : list AlignedSegment) (tag : string) :
  tag ∈ map fst (fold_left count_body reads PyDict.empty)
  ↔ tag ∈ map read_tag reads.
Proof.
  destruct (count_loop_invariant reads) as (Hnd & Hget & _).
  simpl in Hnd, Hget. rewrite <- carrying_pos_iff.
  assert (0 ≤ carrying tag reads) by (unfold carrying; lia).
  rewrite list_elem_of_fmap. split.
  - intros ([k n] & -> & Hin). simpl.
    apply (pydict_get_elem_of _ _ _ Hnd) in Hin. rewrite Hget in Hin.
    destruct (decide (carrying k reads = 0)); [done|].
    unfold carrying in *. lia.
  - intros Hpos. exists (tag, carrying tag reads). split; [done|].
    apply (pydict_get_elem_of _ _ _ Hnd). rewrite Hget.
    rewrite decide_False; [done|lia].
Qed.

Lemma py_sum_at_least_rows (d : PyDict.t) :
  (∀ k v, (k, v) ∈ d → 1 ≤ v) →
  Z.of_nat (length d) ≤ py_sum (PyDict.values d).
Proof.
  unfold PyDict.values. induction d as [|[k v] d IH]; intros Hpos.
  - unfold py_sum. simpl. lia.
  - simpl map. rewrite py_sum_cons. simpl length.
    pose proof (Hpos k v (list_elem_of_here _ _)).
    assert (Z.of_nat (length d) ≤ py_sum (map snd d)).
    { apply IH. intros k' v' Hin. apply (Hpos k').
      by apply list_elem_of_further. }
    lia.
Qed.

(** X14. The number of tags that [umi_count_bam] reports is the number of
    distinct tags among the records; it is at most the number of reads it
    reports, and it is zero exactly for a container without records. *)
Theorem tag_count_is_number_of_distinct_tags (reads : list AlignedSegment) :
  let '(umi_count, reads_number, _) := umi_count_bam reads in
  umi_count
  = Z.of_nat (size (list_to_set (map read_tag reads) : gset string))
  ∧ 0 ≤ umi_count ≤ reads_number
  ∧ (umi_count = 0 ↔ reads = []).
Proof.
  unfold umi_count_bam, PyDict.items.
  destruct (count_loop_invariant reads) as (Hnd & Hget & Hsum).
  simpl in Hnd, Hget, Hsum.
  set (df := fold_left count_body reads PyDict.empty) in *.
  assert (Hrows : Z.of_nat (length df) ≤ py_sum (map snd df)).
  { apply py_sum_at_least_rows. intros k v Hin.
    apply (pydict_get_elem_of _ _ _ Hnd) in Hin. rewrite Hget in Hin.
    assert (0 ≤ carrying k reads) by (unfold carrying; lia).
    destruct (decide (carrying k reads = 0)); [done|].
    injection Hin as <-. lia. }
  assert (Hsize : length df
                  = size (list_to_set (map read_tag reads) : gset string)).
  { rewrite <- (length_map fst df).
    unfold size, set_size. simpl. apply Permutation_length.
    apply NoDup_Permutation; [exact Hnd|apply NoDup_elements|].
    intros tag. rewrite elem_of_elements, elem_of_list_to_set.
    apply tag_table_keys. }
  split; [by rewrite Hsize|]. split; [lia|].
  split.
  - intros Hz. destruct reads as [|r reads]; [done|]. exfalso.
    assert (Hin : read_tag r ∈ map fst df).
    { apply tag_table_keys. simpl. apply list_elem_of_here. }
    destruct (map fst df) eqn:Hk; [by apply elem_of_nil in Hin|].
    rewrite <- (length_map fst df), Hk in Hz. simpl in Hz. lia.
  - by intros ->.
Qed.

Lemma pydict_set_keys_order (d : PyDict.t) (k : string) (v : Z) :
  map fst (PyDict.set d k v)
  = if decide (k ∈ map fst d) then map fst d else map fst d ++ [k].
Proof.
  induction d as [|[k0 v0] d IH].
  - reflexivity.
  - cbn [PyDict.set map fst].
    destruct (String.eqb_spec k0 k) as [->|Hne]; cbn [map fst].
    + by rewrite decide_True by apply list_elem_of_here.
    + rewrite IH. destruct (decide (k ∈ map fst d)) as [Hin|Hnin].
      * by rewrite decide_True by by apply list_elem_of_further.
      * rewrite decide_False; [done|].
        intros [->|Hin]%elem_of_cons; done.
Qed.

Lemma count_body_keys_order (d : PyDict.t) (read : AlignedSegment) :
  map fst (count_body d read)
  = if decide (read_tag read ∈ map fst d) then map fst d
    else map fst d ++ [read_tag read].
Proof.
  unfold count_body.
  destruct (PyDict.get d (read_tag read)); apply pydict_set_keys_order.
Qed.

Lemma count_loop_keys_order (reads : list AlignedSegment) (d : PyDict.t) :
  map fst (fold_left count_body reads d)
  = map fst d
    ++ filter (fun t => t ∉ map fst d)
         (first_occurrences (map read_tag reads)).
Proof.
  revert d. induction reads as [|r reads IH]; intros d; simpl.
  - by rewrite app_nil_r.
  - rewrite IH, count_body_keys_order, filter_cons.
    destruct (decide (read_tag r ∈ map fst d)) as [Hin|Hnin].
    + rewrite decide_False by tauto. f_equal.
      rewrite list_filter_filter. apply list_filter_iff.
      intros t. split; [|tauto]. intros Ht. split; [done|]. by intros ->.
    + rewrite decide_True by done. rewrite <- app_assoc. simpl. do 2 f_equal.
      rewrite list_filter_filter. apply list_filter_iff.
      intros t. rewrite elem_of_app, list_elem_of_singleton. tauto.
Qed.

(** X15. The rows of the table stand in the order in which their tags first
    occur in the container. *)
Theorem tag_rows_in_order_of_first_occurrence (reads : list AlignedSegment) :
  let '(_, _, df) := umi_count_bam reads in
  map fst df = first_occurrences (map read_tag reads).
Proof.
  unfold umi_count_bam, PyDict.items.
  rewrite count_loop_keys_order. simpl.
  induction (first_occurrences (map read_tag reads)) as [|t l IH]; [done|].
  rewrite filter_cons_True by apply not_elem_of_nil. by rewrite IH.
Qed.

(** X16. The order of the records of a container does not matter to the
    counts: for any rearrangement the number of tags and the number of
    reads are the same, and the table has the same rows, possibly in
    another order. *)
Theorem tag_counts_ignore_record_order (reads reads' : list AlignedSegment) :
  reads ≡ₚ reads' →
  let '(umi_count, reads_number, df) := umi_count_bam reads in
  let '(umi_count', reads_number', df') := umi_count_bam reads' in
  umi_count = umi_count' ∧ reads_number = reads_number' ∧ df ≡ₚ df'.
Proof.
  intros Hperm. unfold umi_count_bam, PyDict.items.
  destruct (count_loop_invariant reads) as (Hnd & Hget & Hsum).
  destruct (count_loop_invariant reads') as (Hnd' & Hget' & Hsum').
  simpl in Hnd, Hget, Hsum, Hnd', Hget', Hsum'.
  assert (Hcarry : ∀ t, carrying t reads = carrying t reads').
  { intros t. unfold carrying. f_equal. by rewrite Hperm. }
  assert (Hrows : fold_left count_body reads PyDict.empty
                  ≡ₚ fold_left count_body reads' PyDict.empty).
  { apply NoDup_Permutation.
    - by apply NoDup_fmap_1 with fst.
    - by apply NoDup_fmap_1 with fst.
    - intros [k v].
      rewrite (pydict_get_elem_of _ _ _ Hnd), (pydict_get_elem_of _ _ _ Hnd').
      by rewrite Hget, Hget', Hcarry. }
  split; [by rewrite Hrows|]. split; [|exact Hrows].
  unfold PyDict.values in *. rewrite Hsum, Hsum'. f_equal.
  by apply Permutation_length.
Qed.

Lemma tag_counts_ignore_record_order_witness :
  [mkAlignedSegment "a_R1" "l1"; mkAlignedSegment "b_R2" "l2"]
  ≡ₚ [mkAlignedSegment "b_R2" "l2"; mkAlignedSegment "a_R1" "l1"]
  ∧ [("R1", 1); ("R2", 1)] ≡ₚ [("R2", 1); ("R1", 1)].
Proof.
  split; [apply Permutation_swap|].
  exact (proj2 (proj2 (tag_counts_ignore_record_order
           [mkAlignedSegment "a_R1" "l1"; mkAlignedSegment "b_R2" "l2"]
           [mkAlignedSegment "b_R2" "l2"; mkAlignedSegment "a_R1" "l1"]
           (Permutation_swap _ _ _)))).
Defined.

(** ** Labels from file names *)

Example label_of_documented_name :
  extract_barcode_from_filename
    "path/to/XYZ_cc3_srtn_BARCODE.deduplicated.srt.bam" = "BARCODE".
Proof. reflexivity. Qed.

Example label_without_dot :
  extract_barcode_from_filename "XYZ_cc3_srtn_BARCODEdeduplicated.srt.bam"
  = "BARCOD".
Proof. reflexivity. Qed.

Example label_fallback :
  extract_barcode_from_filename "dir/sample.srt.bam" = "sample.srt".
Proof. reflexivity. Qed.

Example label_later_marker :
  extract_barcode_from_filename "a_cc3_srtn_b_cc3_srtn_BC.deduplicated.bam"
  = "b_cc3_srtn_BC".
Proof. reflexivity. Qed.

Example splitext_cases :
  os_path_splitext "a/b.c/d" = ("a/b.c/d", EmptyString)
  ∧ os_path_splitext ".bashrc" = (".bashrc", EmptyString)
  ∧ os_path_splitext "a..b" = ("a.", ".b")
  ∧ os_path_splitext "x/..a.b" = ("x/..a", ".b")
  ∧ os_path_splitext "..." = ("...", EmptyString).
Proof. repeat split. Qed.

Lemma strip_prefix_app (p r : string) : strip_prefix p (p +:+ r) = Some r.
Proof.
  induction p as [|a p IH]; [by destruct r|].
  rewrite string_app_cons. simpl. by rewrite Ascii.eqb_refl.
Qed.

Lemma strip_prefix_Some (p s r : string) :
  strip_prefix p s = Some r → s = p +:+ r.
Proof.
  revert s. induction p as [|a p IH]; intros s; simpl.
  - destruct s; by intros [= <-].
  - destruct s as [|b s]; [done|].
    destruct (Ascii.eqb_spec a b) as [->|_]; [|done].
    intros Hs. rewrite string_app_cons. by rewrite (IH _ Hs).
Qed.

(** Where the tail of the pattern matches, the group is followed by one
    character that is not a line feed and by the literal, and holds no
    line feed itself. *)
Lemma lazy_group_then_sound (lit s acc g : string) :
  lazy_group_then lit s acc = Some g →
  ∃ g' c post, g = acc +:+ g' ∧ s = g' +:+ String c (lit +:+ post)
               ∧ c ≠ "010"%char ∧ has_char "010" g' = false.
Proof.
  revert acc. induction s as [|a s IH]; intros acc; simpl; [done|].
  destruct (Ascii.eqb_spec a "010") as [->|Ha]; [done|].
  destruct (strip_prefix lit s) as [post|] eqn:Hlit.
  - intros [= <-]. exists EmptyString, a, post.
    rewrite string_app_nil_r. apply strip_prefix_Some in Hlit as ->. done.
  - intros (g' & c & post & -> & -> & Hc & Hg')%IH.
    exists (String a g'), c, post. rewrite string_app_assoc. simpl.
    split; [done|]. split; [done|]. split; [done|].
    rewrite Hg'. by destruct (Ascii.eqb_spec a "010").
Qed.

(** The tail of the pattern matches wherever it can. *)
Lemma lazy_group_then_complete (lit g post acc : string) (c : ascii) :
  has_char "010" g = false → c ≠ "010"%char →
  is_Some (lazy_group_then lit (g +:+ String c (lit +:+ post)) acc).
Proof.
  revert acc. induction g as [|a g IH]; intros acc Hg Hc.
  - change (EmptyString +:+ ?x) with x. simpl.
    destruct (Ascii.eqb_spec c "010"); [done|].
    rewrite strip_prefix_app. eauto.
  - rewrite string_app_cons. simpl in Hg |- *.
    apply orb_false_iff in Hg as [Ha Hg]. rewrite Ha.
    destruct (strip_prefix lit _); [eauto|]. by apply IH.
Qed.

Lemma re_search_group_sound (marker lit s g : string) :
  re_search_group marker lit s = Some g →
  ∃ pre c post, s = pre +:+ marker +:+ g +:+ String c (lit +:+ post)
                ∧ c ≠ "010"%char ∧ has_char "010" g = false.
Proof.
  induction s as [|a s IH].
  - by destruct marker.
  - cbn [re_search_group].
    destruct (strip_prefix marker (String a s)) as [rest|] eqn:Hm.
    + destruct (lazy_group_then lit rest EmptyString) as [g0|] eqn:Hl.
      * intros [= <-].
        apply lazy_group_then_sound in Hl as (g' & c & post & -> & -> & Hc & Hg').
        apply strip_prefix_Some in Hm. exists EmptyString, c, post.
        change (EmptyString +:+ ?x) with x. by rewrite Hm.
      * intros (pre & c & post & -> & Hc & Hg)%IH.
        by exists (String a pre), c, post.
    + intros (pre & c & post & -> & Hc & Hg)%IH.
      by exists (String a pre), c, post.
Qed.

Lemma re_search_group_complete (marker lit pre g post : string) (c : ascii) :
  has_char "010" g = false → c ≠ "010"%char →
  is_Some (re_search_group marker lit
             (pre +:+ marker +:+ g +:+ String c (lit +:+ post))).
Proof.
  intros Hg Hc. induction pre as [|a pre IH].
  - change (EmptyString +:+ ?x) with x.
    assert (Hhere : is_Some
              (match strip_prefix marker
                       (marker +:+ g +:+ String c (lit +:+ post)) with
               | Some rest => lazy_group_then lit rest EmptyString
               | None => None
               end)).
    { rewrite strip_prefix_app. by apply lazy_group_then_complete. }
    destruct Hhere as [g0 Hhere].
    destruct (marker +:+ g +:+ String c (lit +:+ post)) eqn:Hs;
      cbn [re_search_group]; rewrite Hhere; eauto.
  - rewrite string_app_cons. cbn [re_search_group].
    destruct (match strip_prefix marker _ with
              | Some rest => lazy_group_then lit rest EmptyString
              | None => None
              end); [eauto|exact IH].
Qed.

(** X17. The label that the two functions [extract_barcode_from_filename]
    give a file. Either the base name reads
    [...<marker><label><c>deduplicated...] for a character [c] that is
    not a line feed (any such character, not only a dot), with no line
    feed in the label; or the base name cannot be read that way for any
    label, and the label is the base name without its extension. *)
Theorem label_of_file_name (marker path : string) :
  let name := os_path_basename path in
  let label := extract_barcode_with marker path in
  (∃ pre c post,
     name = pre +:+ marker +:+ label +:+ String c ("deduplicated" +:+ post)
     ∧ c ≠ "010"%char ∧ has_char "010" label = false)
  ∨ ((∀ pre g c post,
        name = pre +:+ marker +:+ g +:+ String c ("deduplicated" +:+ post) →
        c ≠ "010"%char → has_char "010" g = false → False)
     ∧ label = fst (os_path_splitext name)).
Proof.
  intros name label. unfold label, extract_barcode_with. fold name.
  destruct (re_search_group marker "deduplicated" name) as [g|] eqn:Hs.
  - left. by apply re_search_group_sound.
  - right. split; [|done]. intros pre g c post Hname Hc Hg.
    pose proof (re_search_group_complete marker "deduplicated" pre g post c
                  Hg Hc) as [g0 Hg0].
    rewrite <- Hname in Hg0. congruence.
Qed.

Lemma os_path_basename_join (dir name : string) :
  has_char "/" name = false →
  os_path_basename (dir +:+ "/" +:+ name) = name.
Proof. apply split_last_app. Qed.

(** A group without the letter [d] ends where the literal is first met. *)
Lemma lazy_group_then_exact (bc post acc : string) (c : ascii) :
  has_char "d" bc = false → has_char "010" bc = false → c ≠ "010"%char →
  lazy_group_then "deduplicated"
    (bc +:+ String c ("deduplicated" +:+ post)) acc
  = Some (acc +:+ bc).
Proof.
  revert acc. induction bc as [|a bc IH]; intros acc Hd Hnl Hc.
  - change (EmptyString +:+ ?x) with x. cbn [lazy_group_then].
    destruct (Ascii.eqb_spec c "010"); [done|].
    by rewrite strip_prefix_app, string_app_nil_r.
  - rewrite string_app_cons. cbn [lazy_group_then].
    simpl in Hd, Hnl.
    apply orb_false_iff in Hd as [Ha Hd].
    apply orb_false_iff in Hnl as [Ha' Hnl]. rewrite Ha'.
    assert (Hnone : strip_prefix "deduplicated"
                      (bc +:+ String c ("deduplicated" +:+ post)) = None).
    { destruct bc as [|b bc].
      - change (EmptyString +:+ ?x) with x.
        change ("deduplicated" +:+ post)
          with (String "d" ("eduplicated" +:+ post)).
        cbn [strip_prefix].
        destruct (Ascii.eqb_spec "d" c); [|done]. reflexivity.
      - rewrite string_app_cons. cbn [strip_prefix]. simpl in Hd.
        apply orb_false_iff in Hd as [Hb _].
        rewrite Ascii.eqb_sym in Hb. by rewrite Hb. }
    rewrite Hnone, IH by done. by rewrite string_app_assoc.
Qed.

(** No match starts in a stretch without an underscore. *)
Lemma re_search_group_skip (m lit pre rest : string) :
  has_char "_" pre = false →
  re_search_group (String "_" m) lit (pre +:+ rest)
  = re_search_group (String "_" m) lit rest.
Proof.
  induction pre as [|a pre IH]; intros Hpre; [done|].
  simpl in Hpre. apply orb_false_iff in Hpre as [Ha Hpre].
  rewrite string_app_cons. cbn [re_search_group strip_prefix].
  rewrite Ascii.eqb_sym in Ha. rewrite Ha. by apply IH.
Qed.

Lemma extract_barcode_with_scheme (m dir pre bc post : string) (c : ascii) :
  has_char "/" (pre +:+ String "_" m +:+ bc
                  +:+ String c ("deduplicated" +:+ post)) = false →
  has_char "_" pre = false →
  has_char "d" bc = false → has_char "010" bc = false → c ≠ "010"%char →
  extract_barcode_with (String "_" m)
    (dir +:+ "/" +:+ pre +:+ String "_" m +:+ bc
       +:+ String c ("deduplicated" +:+ post))
  = bc.
Proof.
  intros Hslash Hpre Hd Hnl Hc. unfold extract_barcode_with.
  rewrite (os_path_basename_join dir _ Hslash).
  rewrite re_search_group_skip by done.
  rewrite string_app_cons. cbn [re_search_group].
  rewrite <- string_app_cons, strip_prefix_app.
  by rewrite lazy_group_then_exact.
Qed.

(** X18. The naming scheme of the documentation,
    [<prefix>_cc3_srtn_<BARCODE>.deduplicated...] in any directory: for a
    prefix without underscore and a barcode without the letter [d] and
    without line feed the label is the barcode, and so it is when any
    other character that is not a line feed stands in the place of the
    dot. The same holds for the pattern of [compute_mcpg_consistency.py]
    with [_srtn_]. *)
Theorem label_of_scheme_is_barcode (dir pre bc post : string) (c : ascii) :
  has_char "/" pre = false → has_char "/" bc = false →
  c ≠ "/"%char → has_char "/" post = false →
  has_char "_" pre = false →
  has_char "d" bc = false → has_char "010" bc = false → c ≠ "010"%char →
  extract_barcode_from_filename
    (dir +:+ "/" +:+ pre +:+ "_cc3_srtn_" +:+ bc
       +:+ String c ("deduplicated" +:+ post)) = bc
  ∧ mcpg_extract_barcode_from_filename
      (dir +:+ "/" +:+ pre +:+ "_srtn_" +:+ bc
         +:+ String c ("deduplicated" +:+ post)) = bc.
Proof.
  intros Hpre Hbc Hc Hpost Hunder Hd Hnl Hcnl.
  apply Ascii.eqb_neq in Hc.
  split.
  - apply (extract_barcode_with_scheme "cc3_srtn_"); try done.
    rewrite !has_char_app, Hpre, Hbc. simpl. rewrite Hc.
    by rewrite has_char_app, Hpost.
  - apply (extract_barcode_with_scheme "srtn_"); try done.
    rewrite !has_char_app, Hpre, Hbc. simpl. rewrite Hc.
    by rewrite has_char_app, Hpost.
Qed.

Lemma label_of_scheme_is_barcode_witness :
  extract_barcode_from_filename
    ("path/to" +:+ "/" +:+ "XYZ" +:+ "_cc3_srtn_" +:+ "BARCODE"
       +:+ String "." ("deduplicated" +:+ ".srt.bam")) = "BARCODE"
  ∧ mcpg_extract_barcode_from_filename
      ("path/to" +:+ "/" +:+ "XYZ" +:+ "_srtn_" +:+ "BARCODE"
         +:+ String "." ("deduplicated" +:+ ".srt.bam")) = "BARCODE".
Proof.
  apply (label_of_scheme_is_barcode "path/to" "XYZ" "BARCODE" ".srt.bam" ".");
    try reflexivity; discriminate.
Defined.

(** ** The corpus summary *)









Example corpus_summary_order :
  match count_umi_main ["d/b_srt.bam"; "d/a_srt.bam"]
          (fun _ => [mkAlignedSegment "x_R1" "l1"]) with
  | Some out => map fst (detail_tables out)
  | None => []
  end
  = ["a_srt.bam.reads.info.txt"; "b_srt.bam.reads.info.txt"].
Proof. reflexivity. Qed.

(** ** The command line of compute_mcpg_consistency.py *)

(** X20. The usage test lets a command line with one argument through, and
    reading the second argument then raises [IndexError]: the script
    runs only with two arguments, prints its usage with none or with
    more than two, and fails with the input directory alone. *)
Theorem mcpg_argv_outcomes (argv : list string) :
  match mcpg_parse_argv argv with
  | McpgArgsOk directory_path out_file =>
      ∃ prog, argv = [prog; directory_path; out_file]
  | McpgIndexError => length argv = 2%nat
  | McpgUsage => length argv ≠ 2%nat ∧ length argv ≠ 3%nat
  end.
Proof.
  unfold mcpg_parse_argv.
  destruct (Z.eqb_spec (Z.of_nat (length argv)) 2) as [H2|H2];
    destruct (Z.eqb_spec (Z.of_nat (length argv)) 3) as [H3|H3];
    cbn [negb andb].
  - lia.
  - destruct argv as [|prog [|d [|o argv]]]; simpl in H2; try lia.
    reflexivity.
  - destruct argv as [|prog [|d [|o [|x argv]]]]; simpl in H3; try lia.
    by exists prog.
  - split; lia.
Qed.

(** ** The figures of a methylation file *)

Lemma Counter_snoc (l : list Z) (x : Z) :
  Counter (l ++ [x]) = counter_body (Counter l) x.
Proof. unfold Counter. by rewrite fold_left_app. Qed.

(** [Counter] maps each element of the list to the number of times it
    occurs, and has no other key. *)
Lemma Counter_lookup (l : list Z) (k : Z) :
  Counter l !! k
  = if decide (length (filter (fun x => x = k) l) = 0%nat) then None
    else Some (Z.of_nat (length (filter (fun x => x = k) l))).
Proof.
  induction l as [|x l IH] using rev_ind; [done|].
  rewrite Counter_snoc, filter_app, length_app. unfold counter_body.
  destruct (decide (x = k)) as [->|Hne].
  - rewrite lookup_insert_eq, IH, filter_cons_True by done. simpl.
    rewrite (decide_False (P := (_ + 1)%nat = 0%nat)) by lia.
    destruct (decide (length (filter (fun x => x = k) l) = 0%nat)) as [->|_];
      simpl; f_equal; lia.
  - rewrite lookup_insert_ne, IH, filter_cons_False by done. simpl.
    by rewrite Nat.add_0_r.
Qed.

Lemma length_filter_map {A B : Type} (f : A → B) (P : B → Prop)
    `{∀ y, Decision (P y)} (l : list A) :
  length (filter P (map f l)) = length (filter (fun x => P (f x)) l).
Proof.
  induction l as [|x l IH]; [done|].
  rewrite map_cons, !filter_cons. destruct (decide (P (f x))); simpl; lia.
Qed.

Lemma times_seen_pos (rows : list CpgRow) (pos : Z) :
  length (filter (fun x => x = pos) (map cpg_pos rows))
  = times_seen (cpg_pairs rows) pos.
Proof.
  unfold times_seen, cpg_pairs. by rewrite !length_filter_map.
Qed.

Lemma status_list_at_pairs (rows : list CpgRow) (pos : Z) :
  status_list_at rows pos
  = map snd (filter (fun p => p.1 = pos) (cpg_pairs rows)).
Proof.
  unfold status_list_at, cpg_pairs.
  induction rows as [|r rows IH]; [done|].
  rewrite map_cons, !filter_cons. simpl.
  destruct (decide (cpg_pos r = pos)); simpl; by rewrite IH.
Qed.

Lemma positions_seen_pos (rows : list CpgRow) :
  list_to_set (map cpg_pos rows) = positions_seen (cpg_pairs rows).
Proof.
  unfold positions_seen, cpg_pairs. by rewrite map_map.
Qed.

Lemma times_seen_elem (ps : list (Z * string)) (pos : Z) :
  pos ∈ positions_seen ps ↔ (1 ≤ times_seen ps pos)%nat.
Proof.
  unfold positions_seen, times_seen.
  rewrite elem_of_list_to_set, list_elem_of_fmap. split.
  - intros ([k v] & -> & Hin).
    assert (Hin' : (k, v) ∈ filter (fun p => p.1 = (k, v).1) ps).
    { by apply list_elem_of_filter. }
    destruct (filter _ ps); [by apply elem_of_nil in Hin'|simpl; lia].
  - intros Hpos. destruct (filter _ ps) as [|p l] eqn:Hf;
      [simpl in Hpos; lia|].
    assert (Hin : p ∈ filter (fun p => p.1 = pos) ps).
    { rewrite Hf. apply list_elem_of_here. }
    apply list_elem_of_filter in Hin as [Hp Hin]. by exists p.
Qed.

Lemma size_list_to_set_le `{Countable A} (l : list A) :
  (size (list_to_set l : gset A) ≤ length l)%nat.
Proof.
  induction l as [|x l IH]; [by rewrite list_to_set_nil, size_empty|].
  rewrite list_to_set_cons, size_union_alt, size_singleton. simpl.
  assert (Hsub : (list_to_set l ∖ {[x]} : gset A) ⊆ list_to_set l).
  { apply subseteq_difference_l. done. }
  apply subseteq_size in Hsub. lia.
Qed.

Lemma statuses_seen_le (ps : list (Z * string)) (pos : Z) :
  (size (statuses_seen ps pos) ≤ times_seen ps pos)%nat.
Proof.
  unfold statuses_seen, times_seen.
  etrans; [apply size_list_to_set_le|]. by rewrite length_map.
Qed.

Lemma statuses_seen_nonempty (ps : list (Z * string)) (pos : Z) :
  pos ∈ positions_seen ps → (1 ≤ size (statuses_seen ps pos))%nat.
Proof.
  intros Hpos%times_seen_elem. unfold statuses_seen, times_seen in *.
  destruct (filter _ ps) as [|p l]; [simpl in Hpos; lia|].
  rewrite map_cons, list_to_set_cons, size_union_alt, size_singleton. lia.
Qed.

Lemma NoDup_map_filter {A B : Type} (f : A → B) (P : A → Prop)
    `{∀ x, Decision (P x)} (l : list A) :
  NoDup (map f l) → NoDup (map f (filter P l)).
Proof.
  induction l as [|x l IH]; [done|].
  rewrite map_cons, filter_cons. intros [Hx Hnd]%NoDup_cons.
  destruct (decide (P x)); [|by apply IH].
  rewrite map_cons. apply NoDup_cons. split; [|by apply IH].
  intros (y & Hy & Hin)%list_elem_of_fmap. apply Hx.
  apply list_elem_of_fmap. exists y. split; [done|].
  by apply list_elem_of_filter in Hin as [_ Hin].
Qed.

Lemma Counter_lookup_Some (rows : list CpgRow) (pos v : Z) :
  Counter (map cpg_pos rows) !! pos = Some v
  ↔ (1 ≤ times_seen (cpg_pairs rows) pos)%nat
    ∧ v = Z.of_nat (times_seen (cpg_pairs rows) pos).
Proof.
  rewrite Counter_lookup, times_seen_pos.
  destruct (decide (times_seen (cpg_pairs rows) pos = 0%nat)) as [Hz|Hnz].
  - split; [done|]. lia.
  - split; [intros [= <-]; split; [lia|done]|]. by intros [_ ->].
Qed.

(** The three figures of a file are numbers of positions: the positions
    that occur, those that occur at least twice, and those at which more
    than one status was observed. *)
Lemma mcpg_file_metrics_sets (rows : list CpgRow) :
  mcpg_file_metrics rows
  = (Z.of_nat (size (positions_seen (cpg_pairs rows))),
     Z.of_nat (size (positions_repeated (cpg_pairs rows))),
     Z.of_nat (size (positions_inconsistent (cpg_pairs rows)))).
Proof.
  unfold mcpg_file_metrics.
  destruct (Z.eqb_spec (Z.of_nat (length (map cpg_pos rows))) 0) as [Hz|_].
  { destruct rows; [|simpl in Hz; lia].
    unfold positions_repeated, positions_inconsistent, positions_seen,
      cpg_pairs.
    cbn [map]. rewrite list_to_set_nil, !filter_empty_L; [|apply _..].
    by rewrite size_empty. }
  set (ps := cpg_pairs rows). set (m := Counter (map cpg_pos rows)).
  assert (Hdom : dom m = positions_seen ps).
  { apply set_eq. intros k. rewrite elem_of_dom, times_seen_elem.
    unfold is_Some. split.
    - intros [v Hv]. by apply Counter_lookup_Some in Hv as [? _].
    - intros Hk. eexists. by apply Counter_lookup_Some. }
  f_equal; [f_equal|].
  - by rewrite <- Hdom, size_dom.
  - rewrite length_filter_map.
    rewrite <- (length_map fst (filter _ (map_to_list m))).
    unfold size at 1, set_size. simpl. f_equal. apply Permutation_length.
    apply NoDup_Permutation.
    + apply NoDup_map_filter, NoDup_fst_map_to_list.
    + apply NoDup_elements.
    + intros k. rewrite elem_of_elements. unfold positions_repeated.
      rewrite elem_of_filter, times_seen_elem, list_elem_of_fmap. split.
      * intros ([k' v] & -> & [Hv Hin%elem_of_map_to_list]%list_elem_of_filter).
        simpl in *. apply Counter_lookup_Some in Hin as [Hpos ->].
        fold ps in Hpos, Hv. split; lia.
      * intros [Htwice Hpos]. exists (k, Z.of_nat (times_seen ps k)).
        split; [done|]. apply list_elem_of_filter. simpl. split; [lia|].
        apply elem_of_map_to_list. by apply Counter_lookup_Some.
  - f_equal. rewrite positions_seen_pos. fold ps.
    unfold size, set_size. simpl. apply Permutation_length.
    apply NoDup_Permutation.
    + apply NoDup_filter, NoDup_elements.
    + apply NoDup_elements.
    + intros k. rewrite elem_of_elements. unfold positions_inconsistent.
      rewrite elem_of_filter, list_elem_of_filter, elem_of_elements.
      rewrite status_list_at_pairs. fold ps. fold (statuses_seen ps k).
      split.
      * intros [Hne Hk]. split; [|done].
        pose proof (statuses_seen_nonempty ps k Hk).
        change (length (elements (statuses_seen ps k)))
          with (size (statuses_seen ps k)) in Hne. lia.
      * intros [Htwo Hk]. split; [|done].
        change (length (elements (statuses_seen ps k)))
          with (size (statuses_seen ps k)). lia.
Qed.

(** X21. For one file of [compute_mcpg_consistency.py], [Detect_pos] is the
    number of distinct positions of the file, [Rep_pos] the number of
    positions that occur on at least two lines and [Ins_pos] the number
    of positions with at least two different statuses. Positions are
    pooled whatever chromosome their lines name; all three are 0 exactly
    for a file without lines. *)
Theorem mcpg_figures_count_positions (rows : list CpgRow) :
  let '(detect_pos, count_ge_2, status_2) := mcpg_file_metrics rows in
  detect_pos = Z.of_nat (size (positions_seen (cpg_pairs rows)))
  ∧ count_ge_2 = Z.of_nat (size (positions_repeated (cpg_pairs rows)))
  ∧ status_2 = Z.of_nat (size (positions_inconsistent (cpg_pairs rows)))
  ∧ (detect_pos = 0 ↔ rows = []).
Proof.
  rewrite mcpg_file_metrics_sets. split; [done|]. split; [done|].
  split; [done|]. split.
  - intros Hz. destruct rows as [|r rows]; [done|]. exfalso.
    assert (Hin : cpg_pos r ∈ positions_seen (cpg_pairs (r :: rows))).
    { unfold positions_seen, cpg_pairs. rewrite elem_of_list_to_set.
      simpl. apply list_elem_of_here. }
    assert (Hempty : positions_seen (cpg_pairs (r :: rows)) ≡ ∅).
    { apply size_empty_iff. lia. }
    rewrite Hempty in Hin. by apply elem_of_empty in Hin.
  - intros ->. reflexivity.
Qed.

(** X22. The figures of a file are ordered,
    [0 ≤ Ins_pos ≤ Rep_pos ≤ Detect_pos ≤] number of lines, and the two
    proportions computed from them never raise and satisfy
    [0 ≤ Ins_pro ≤ Rep_pro ≤ 1]. *)
Theorem mcpg_figures_ordered (rows : list CpgRow) :
  let '(detect_pos, count_ge_2, status_2) := mcpg_file_metrics rows in
  0 ≤ status_2 ∧ status_2 ≤ count_ge_2 ∧ count_ge_2 ≤ detect_pos
  ∧ detect_pos ≤ Z.of_nat (length rows)
  ∧ ∃ rep_pro ins_pro,
      mcpg_ratio count_ge_2 detect_pos = Ok rep_pro
      ∧ mcpg_ratio status_2 detect_pos = Ok ins_pro
      ∧ (0 <= ins_pro)%Q ∧ (ins_pro <= rep_pro)%Q ∧ (rep_pro <= 1)%Q.
Proof.
  rewrite mcpg_file_metrics_sets. set (ps := cpg_pairs rows).
  assert (Hir : (size (positions_inconsistent ps)
                 ≤ size (positions_repeated ps))%nat).
  { apply subseteq_size. intros pos.
    unfold positions_inconsistent, positions_repeated.
    rewrite !elem_of_filter. intros [Htwo Hpos]. split; [|done].
    pose proof (statuses_seen_le ps pos). lia. }
  assert (Hrd : (size (positions_repeated ps) ≤ size (positions_seen ps))%nat).
  { apply subseteq_size. intros pos. unfold positions_repeated.
    rewrite elem_of_filter. by intros [_ Hpos]. }
  assert (Hdl : (size (positions_seen ps) ≤ length rows)%nat).
  { unfold positions_seen, ps, cpg_pairs.
    etrans; [apply size_list_to_set_le|]. by rewrite !length_map. }
  split; [lia|]. split; [lia|]. split; [lia|]. split; [lia|].
  unfold mcpg_ratio, py_truediv.
  destruct (Z.gtb_spec (Z.of_nat (size (positions_seen ps))) 0) as [Hpos|Hz].
  - destruct (Z.eqb_spec (Z.of_nat (size (positions_seen ps))) 0); [lia|].
    eexists _, _. split; [reflexivity|]. split; [reflexivity|].
    assert (Hd : (0 < inject_Z (Z.of_nat (size (positions_seen ps))))%Q).
    { change 0%Q with (inject_Z 0). rewrite <- Zlt_Qlt. lia. }
    split; [|split].
    + apply Qle_shift_div_l; [exact Hd|]. rewrite Qmult_0_l.
      change 0%Q with (inject_Z 0). rewrite <- Zle_Qle. lia.
    + unfold Qdiv. apply Qmult_le_compat_r.
      * rewrite <- Zle_Qle. lia.
      * apply Qinv_le_0_compat. by apply Qlt_le_weak.
    + apply Qle_shift_div_r; [exact Hd|]. rewrite Qmult_1_l.
      rewrite <- Zle_Qle. lia.
  - eexists _, _. split; [reflexivity|]. split; [reflexivity|].
    repeat split; done.
Qed.

(** X23. The figures of a file depend on its (position, status) pairs only,
    and not on their order: the chromosome column plays no part (equal
    positions on different chromosomes count as one position), and
    neither does the order into which the frame was sorted. *)
Theorem mcpg_figures_ignore_order_and_chromosome
    (rows rows' : list CpgRow) :
  cpg_pairs rows ≡ₚ cpg_pairs rows' →
  mcpg_file_metrics rows = mcpg_file_metrics rows'.
Proof.
  intros Hperm. rewrite !mcpg_file_metrics_sets.
  set (ps := cpg_pairs rows) in *. set (ps' := cpg_pairs rows') in *.
  assert (Hseen : positions_seen ps = positions_seen ps').
  { unfold positions_seen. by rewrite Hperm. }
  assert (Htimes : ∀ pos, times_seen ps pos = times_seen ps' pos).
  { intros pos. unfold times_seen. by rewrite Hperm. }
  assert (Hstat : ∀ pos, statuses_seen ps pos = statuses_seen ps' pos).
  { intros pos. unfold statuses_seen. by rewrite Hperm. }
  assert (Hrep : positions_repeated ps = positions_repeated ps').
  { apply set_eq. intros pos. unfold positions_repeated.
    by rewrite !elem_of_filter, Hseen, Htimes. }
  assert (Hins : positions_inconsistent ps = positions_inconsistent ps').
  { apply set_eq. intros pos. unfold positions_inconsistent.
    by rewrite !elem_of_filter, Hseen, Hstat. }
  by rewrite Hseen, Hrep, Hins.
Qed.

Lemma mcpg_figures_ignore_order_and_chromosome_witness :
  cpg_pairs [mkCpgRow "chr1" 100 "Z"; mkCpgRow "chr2" 100 "z"]
  ≡ₚ cpg_pairs [mkCpgRow "chrX" 100 "z"; mkCpgRow "chrX" 100 "Z"]
  ∧ mcpg_file_metrics [mkCpgRow "chr1" 100 "Z"; mkCpgRow "chr2" 100 "z"]
    = mcpg_file_metrics [mkCpgRow "chrX" 100 "z"; mkCpgRow "chrX" 100 "Z"].
Proof.
  split; [apply Permutation_swap|].
  apply mcpg_figures_ignore_order_and_chromosome. apply Permutation_swap.
Defined.

Example mcpg_two_chromosomes_one_position :
  mcpg_file_metrics [mkCpgRow "chr1" 100 "Z"; mkCpgRow "chr2" 100 "z";
                     mkCpgRow "chr1" 200 "Z"]
  = (2, 1, 1).
Proof. vm_compute. reflexivity. Qed.

(** ** The index and the order of the mate-1 stream *)

(** X24. With distinct identities the index does not depend on the order
    of the mate-1 records: any rearrangement of the stream gives the same
    index, and therefore the same mate-2 output for every mate-2
    stream. *)
Theorem index_ignores_mate1_order (cb_list : gset string)
    (cb_len umi_len : Z) (in1 in1' in2 : list SeqRecord) :
  NoDup (map rec_id in1) →
  in1 ≡ₚ in1' →
  ∃ r1 r1',
    process_read1 in1 cb_list cb_len umi_len = Ok r1
    ∧ process_read1 in1' cb_list cb_len umi_len = Ok r1'
    ∧ cb_umi_dict r1 = cb_umi_dict r1'
    ∧ process_read2 in2 (cb_umi_dict r1) = process_read2 in2 (cb_umi_dict r1').
Proof.
  intros Hnd Hperm.
  destruct (process_read1_loop cb_list cb_len umi_len in1 r1_init)
    as (r1 & Hrun & _).
  destruct (process_read1_loop cb_list cb_len umi_len in1' r1_init)
    as (r1' & Hrun' & _).
  exists r1, r1'. split; [exact Hrun|]. split; [exact Hrun'|].
  assert (Hnd' : NoDup (map rec_id in1')) by by rewrite <- Hperm.
  assert (Heq : cb_umi_dict r1 = cb_umi_dict r1').
  { apply map_eq. intros k.
    destruct (decide (k ∈ map rec_id in1)) as [Hk|Hk].
    - apply list_elem_of_fmap in Hk as (m & -> & Hm).
      rewrite (index_of_distinct_identities _ _ _ in1 r1 m Hnd Hrun Hm).
      rewrite (index_of_distinct_identities _ _ _ in1' r1' m Hnd' Hrun');
        [done|by rewrite <- Hperm].
    - destruct (process_read1_loop_index_dom _ _ _ _ _ _ Hrun) as [Hdom _].
      destruct (process_read1_loop_index_dom _ _ _ _ _ _ Hrun') as [Hdom' _].
      assert (Hnone : cb_umi_dict r1 !! k = None).
      { apply not_elem_of_dom. rewrite Hdom. simpl. rewrite dom_empty_L.
        intros [Hin|(m & Hm & _ & <-)]; [by apply elem_of_empty in Hin|].
        apply Hk. apply list_elem_of_fmap. by exists m. }
      assert (Hnone' : cb_umi_dict r1' !! k = None).
      { apply not_elem_of_dom. rewrite Hdom'. simpl. rewrite dom_empty_L.
        intros [Hin|(m & Hm & _ & <-)]; [by apply elem_of_empty in Hin|].
        apply Hk. apply list_elem_of_fmap. exists m.
        split; [done|by rewrite Hperm]. }
      by rewrite Hnone, Hnone'. }
  split; [exact Heq|]. by rewrite Heq.
Qed.

Lemma index_ignores_mate1_order_witness :
  [mkSeqRecord "a" "AAAATTxxxx" "IIIIIIIIII";
   mkSeqRecord "b" "AAAAGGxxxx" "IIIIIIIIII"]
  ≡ₚ [mkSeqRecord "b" "AAAAGGxxxx" "IIIIIIIIII";
      mkSeqRecord "a" "AAAATTxxxx" "IIIIIIIIII"]
  ∧ ∃ r1 r1',
      process_read1 [mkSeqRecord "a" "AAAATTxxxx" "IIIIIIIIII";
                     mkSeqRecord "b" "AAAAGGxxxx" "IIIIIIIIII"]
        {["AAAA"]} 4 2 = Ok r1
      ∧ process_read1 [mkSeqRecord "b" "AAAAGGxxxx" "IIIIIIIIII";
                       mkSeqRecord "a" "AAAATTxxxx" "IIIIIIIIII"]
          {["AAAA"]} 4 2 = Ok r1'
      ∧ cb_umi_dict r1 = cb_umi_dict r1'.
Proof.
  split; [apply Permutation_swap|].
  destruct (index_ignores_mate1_order {["AAAA"]} 4 2
              [mkSeqRecord "a" "AAAATTxxxx" "IIIIIIIIII";
               mkSeqRecord "b" "AAAAGGxxxx" "IIIIIIIIII"]
              [mkSeqRecord "b" "AAAAGGxxxx" "IIIIIIIIII";
               mkSeqRecord "a" "AAAATTxxxx" "IIIIIIIIII"] [])
    as (r1 & r1' & Hrun & Hrun' & Heq & _).
  - simpl. apply NoDup_cons. split.
    + intros Hin. apply list_elem_of_singleton in Hin. discriminate.
    + apply NoDup_singleton.
  - apply Permutation_swap.
  - by exists r1, r1'.
Defined.
